(** * cmdparse: the tokenizer and dispatcher of [cmd.cpp]

    A shallow embedding of [CmdParam::gettoken], [getint], [getuint],
    [getfloat] and [process], and the properties of the line cursor, of the
    tokens and of the table lookup.

    Conventions of the embedding.
    - A [std::string] is the list of its characters; a [const char *]
      argument is the list of the characters before its terminating NUL.
    - [size_t] and [unsigned int] values are integers of [Z]; every
      conversion between the two widths is written out ([to_uint],
      [to_size_t]).  The width of [size_t] and of [long] depends on the
      platform, which is a parameter ([data_model]).
    - The static members [current], [index] and [sep] form the record
      [parser], passed in and out of every operation.
    - A C++ exception is a result [Throw]; the parser state it leaves behind
      is kept, as the statics are. *)

From Stdlib Require Import ZArith List Ascii String Bool Lia.
Import ListNotations.
Local Open Scope Z_scope.

(** ** Strings *)

Definition text := list ascii.

Definition lit (s : string) : text := list_ascii_of_string s.
Coercion lit : string >-> text.

Definition size (s : text) : Z := Z.of_nat (List.length s).

Definition mem (c : ascii) (set : text) : bool := existsb (Ascii.eqb c) set.

Definition text_eqb (a b : text) : bool :=
  if list_eq_dec ascii_dec a b then true else false.

(** ** Integer types *)

Inductive data_model := ILP32 | LP64 | LLP64.

Definition size_bits (dm : data_model) : Z :=
  match dm with ILP32 => 32 | LP64 => 64 | LLP64 => 64 end.

Definition long_bits (dm : data_model) : Z :=
  match dm with ILP32 => 32 | LP64 => 64 | LLP64 => 32 end.

Definition UINT_MAX : Z := 2 ^ 32 - 1.
Definition INT_MAX : Z := 2 ^ 31 - 1.
Definition INT_MIN : Z := - 2 ^ 31.

Definition to_uint (z : Z) : Z := z mod 2 ^ 32.
Definition to_size_t (dm : data_model) (z : Z) : Z := z mod 2 ^ size_bits dm.

(** [std::string::npos], the largest [size_t]. *)
Definition npos (dm : data_model) : Z := 2 ^ size_bits dm - 1.

(** ** Exceptions and results *)

Inductive exn := out_of_range | invalid_argument.

Inductive res (A : Type) :=
| Ok (a : A)
| Throw (e : exn).
Arguments Ok {A} a.
Arguments Throw {A} e.

(** ** The [std::string] members the parser calls *)

(** Offset of the first character satisfying [p]. *)
Fixpoint find_if (p : ascii -> bool) (s : text) : option nat :=
  match s with
  | [] => None
  | c :: s' => if p c then Some O else option_map S (find_if p s')
  end.

Definition find_from (dm : data_model) (p : ascii -> bool) (s : text) (pos : Z) : Z :=
  if size s <=? pos then npos dm
  else match find_if p (skipn (Z.to_nat pos) s) with
       | Some k => pos + Z.of_nat k
       | None => npos dm
       end.

Definition find_first_of (dm : data_model) (s set : text) (pos : Z) : Z :=
  find_from dm (fun c => mem c set) s pos.

Definition find_first_not_of (dm : data_model) (s set : text) (pos : Z) : Z :=
  find_from dm (fun c => negb (mem c set)) s pos.

(** [s.substr(pos, count)]: throws when [pos > size()], else the characters
    [pos, pos + min(count, size() - pos)). *)
Definition substr (s : text) (pos count : Z) : res text :=
  if size s <? pos then Throw out_of_range
  else Ok (firstn (Z.to_nat (Z.min count (size s - pos))) (skipn (Z.to_nat pos) s)).

(** ** Parser state: the static members of [CmdParam] *)

Record parser := mkParser {
  current : text;   (* std::string CmdParam::current *)
  index : Z;        (* unsigned int CmdParam::index  *)
  sep : text        (* std::string CmdParam::sep     *)
}.

Definition default_sep : text := [" "; "009"; "013"; "010"]%char.

Definition set_index (st : parser) (i : Z) : parser :=
  {| current := current st; index := i; sep := sep st |}.

Definition set_current (st : parser) (s : text) : parser :=
  {| current := s; index := index st; sep := sep st |}.

(** What an accessor hands back: the returned value or the exception, the
    last value stored through the [valid] pointer ([None] when nothing was
    stored before an exception), and the parser state left behind. *)
Record ret (A : Type) := mkRet {
  value : res A;
  valid : option bool;
  after : parser
}.
Arguments mkRet {A}.
Arguments value {A}.
Arguments valid {A}.
Arguments after {A}.

(** ** [CmdParam::gettoken] *)

Definition gettoken (dm : data_model) (st : parser) : ret text :=
  let n1 := find_first_not_of dm (current st) (sep st) (index st) in
  if n1 =? npos dm then mkRet (Ok []) (Some false) st
  else
    let idx := to_uint (find_first_of dm (current st) (sep st) n1) in
    let count := if negb (idx =? npos dm) then to_size_t dm (idx - n1) else npos dm in
    mkRet (substr (current st) n1 count) (Some true) (set_index st idx).

(** ** The C library conversions behind [std::stoi], [std::stoul], [std::stof] *)

Inductive strto (V : Type) :=
| NoConversion            (* the end pointer did not move *)
| RangeError              (* errno == ERANGE *)
| Converted (v : V).
Arguments NoConversion {V}.
Arguments RangeError {V}.
Arguments Converted {V} v.

Definition code (c : ascii) : Z := Z.of_N (N_of_ascii c).

Definition isspace (c : ascii) : bool :=
  ((9 <=? code c) && (code c <=? 13)) || (code c =? 32).

Definition digit_value (c : ascii) : option Z :=
  let n := code c in
  if (48 <=? n) && (n <=? 57) then Some (n - 48)
  else if (97 <=? n) && (n <=? 122) then Some (n - 87)
  else if (65 <=? n) && (n <=? 90) then Some (n - 55)
  else None.

Definition digit (base : Z) (c : ascii) : option Z :=
  match digit_value c with
  | Some d => if d <? base then Some d else None
  | None => None
  end.

Definition is_digit (base : Z) (c : ascii) : bool :=
  match digit base c with Some _ => true | None => false end.

Fixpoint skip_space (s : text) : text :=
  match s with
  | c :: s' => if isspace c then skip_space s' else s
  | [] => []
  end.

(** Sign of the subject sequence and what follows it. *)
Definition sign_of (s : text) : bool * text :=
  match s with
  | "-"%char :: r => (true, r)
  | "+"%char :: r => (false, r)
  | _ => (false, s)
  end.

(** Base 0: [0x] or [0X] before a hexadecimal digit selects base 16, any
    other leading [0] base 8, anything else base 10. *)
Definition detect_base (s : text) : Z * text :=
  match s with
  | "0"%char :: x :: h :: r =>
      if (Ascii.eqb x "x" || Ascii.eqb x "X") && is_digit 16 h then (16, h :: r)
      else (8, s)
  | "0"%char :: _ => (8, s)
  | _ => (10, s)
  end.

(** Value of the longest prefix of digits. *)
Fixpoint accumulate (base acc : Z) (s : text) : Z :=
  match s with
  | c :: s' =>
      match digit base c with
      | Some d => accumulate base (acc * base + d) s'
      | None => acc
      end
  | [] => acc
  end.

Definition starts_with (p : ascii -> bool) (s : text) : bool :=
  match s with c :: _ => p c | [] => false end.

(** Value of the digits after the sign; [None] when there is none. *)
Definition unsigned_value (s : text) : option Z :=
  let (base, ds) := detect_base s in
  if starts_with (is_digit base) ds then Some (accumulate base 0 ds) else None.

(** Sign and magnitude of the subject sequence; [None] when it is empty. *)
Definition magnitude (s : text) : option (bool * Z) :=
  let (neg, s1) := sign_of (skip_space s) in
  option_map (pair neg) (unsigned_value s1).

Definition strtol (dm : data_model) (s : text) : strto Z :=
  match magnitude s with
  | None => NoConversion
  | Some (neg, m) =>
      let v := if neg then - m else m in
      if (- 2 ^ (long_bits dm - 1) <=? v) && (v <=? 2 ^ (long_bits dm - 1) - 1)
      then Converted v else RangeError
  end.

Definition strtoul (dm : data_model) (s : text) : strto Z :=
  match magnitude s with
  | None => NoConversion
  | Some (neg, m) =>
      if m <=? 2 ^ long_bits dm - 1
      then Converted ((if neg then - m else m) mod 2 ^ long_bits dm)
      else RangeError
  end.

(** [std::stoi(str, NULL, 0)] *)
Definition stoi (dm : data_model) (s : text) : res Z :=
  match strtol dm s with
  | NoConversion => Throw invalid_argument
  | RangeError => Throw out_of_range
  | Converted v =>
      if (v <? INT_MIN) || (INT_MAX <? v) then Throw out_of_range else Ok v
  end.

(** [std::stoul(str, NULL, 0)] *)
Definition stoul (dm : data_model) (s : text) : res Z :=
  match strtoul dm s with
  | NoConversion => Throw invalid_argument
  | RangeError => Throw out_of_range
  | Converted v => Ok v
  end.

(** Floating point.  Whether [strtof] converts anything is a matter of
    syntax and is written out; the [float] it yields and whether it overflows
    or underflows are left to the library. *)
Class FloatLib := {
  float : Type;
  float_zero : float;                 (* 0.0 *)
  strtof_value : text -> float;
  strtof_erange : text -> bool
}.

Definition lower (c : ascii) : ascii :=
  if (65 <=? code c) && (code c <=? 90) then ascii_of_N (N_of_ascii c + 32) else c.

Fixpoint prefix_nocase (p s : text) : bool :=
  match p, s with
  | [], _ => true
  | a :: p', b :: s' => Ascii.eqb a (lower b) && prefix_nocase p' s'
  | _ :: _, [] => false
  end.

(** After white space and a sign: a decimal digit (which also starts [0x...]),
    a point before a decimal digit, [inf] or [nan]. *)
Definition float_subject (s : text) : bool :=
  let s1 := snd (sign_of (skip_space s)) in
  starts_with (is_digit 10) s1
  || match s1 with "."%char :: r => starts_with (is_digit 10) r | _ => false end
  || prefix_nocase "inf"%string s1
  || prefix_nocase "nan"%string s1.

Definition strtof {FL : FloatLib} (s : text) : strto float :=
  if float_subject s then
    if strtof_erange s then RangeError else Converted (strtof_value s)
  else NoConversion.

(** [std::stof(str)] *)
Definition stof {FL : FloatLib} (s : text) : res float :=
  match strtof s with
  | NoConversion => Throw invalid_argument
  | RangeError => Throw out_of_range
  | Converted v => Ok v
  end.

(** ** [CmdParam::getfloat], [getint], [getuint]

    Each stores [tvalid] through [valid] and converts only then. *)

Definition getnumber {A : Type} (zero : A) (convert : text -> res A)
    (dm : data_model) (st : parser) : ret A :=
  let t := gettoken dm st in
  match value t with
  | Throw e => mkRet (Throw e) None (after t)
  | Ok token =>
      match valid t with
      | Some true => mkRet (convert token) (Some true) (after t)
      | _ => mkRet (Ok zero) (Some false) (after t)
      end
  end.

Definition getfloat {FL : FloatLib} (dm : data_model) (st : parser) : ret float :=
  getnumber float_zero stof dm st.

Definition getint (dm : data_model) (st : parser) : ret Z :=
  getnumber 0 (stoi dm) dm st.

(** The [unsigned long] of [std::stoul] is stored in an [unsigned int]. *)
Definition getuint (dm : data_model) (st : parser) : ret Z :=
  getnumber 0 (fun token => match stoul dm token with
                            | Ok v => Ok (to_uint v)
                            | Throw e => Throw e
                            end) dm st.

(** ** The command table *)

(** Modelled from the spec: the declaration of [class CmdParam] ([cmd.h]) is
    not part of the sources.  [cmd.cpp] reads the fields [cmdname], [fp] and
    [arg]; the numeric [id] and the help text are the two remaining fields of
    a table row ([{ 1, "help", "Get help", help, NULL }]).  [Fn] is the type
    of the handlers (function pointers), [Ptr] of the [void *] arguments. *)
Record CmdParam (Fn Ptr : Type) := mkCmd {
  id : Z;
  cmdname : text;
  helptext : text;
  fp : Fn;
  arg : Ptr
}.
Arguments mkCmd {Fn Ptr}.
Arguments id {Fn Ptr}.
Arguments cmdname {Fn Ptr}.
Arguments helptext {Fn Ptr}.
Arguments fp {Fn Ptr}.
Arguments arg {Fn Ptr}.

(** The callbacks [process] can invoke, with their arguments. *)
Inductive callback (Fn Ptr : Type) :=
| printfunc (msg : text)
| notfoundfunc (cmdline cmd : text)
| handler (f : Fn) (n : Z) (a : Ptr) (p : text).
Arguments printfunc {Fn Ptr}.
Arguments notfoundfunc {Fn Ptr}.
Arguments handler {Fn Ptr}.

(** How a call of [process] ends: it returns, an exception leaves it, or its
    loop runs off the end of an array that holds no row with an empty name
    (undefined behaviour). *)
Inductive ending := Returns | Throws (e : exn) | ReadsPastTable.

(** A run of [process]: the callbacks invoked, in order, how it ended, and
    the parser state when the last callback was entered (or the exception
    thrown). *)
Record run (Fn Ptr : Type) := mkRun {
  calls : list (callback Fn Ptr);
  how : ending;
  left : parser
}.
Arguments mkRun {Fn Ptr}.
Arguments calls {Fn Ptr}.
Arguments how {Fn Ptr}.
Arguments left {Fn Ptr}.

(** The outcome of the [for] loop of [process], started at row [i].  The
    counter is an [int]; it counts the rows of an array in memory and stays
    far below [INT_MAX], so it is a [nat] here. *)
Inductive lookup (Fn Ptr : Type) :=
| Found (i : nat) (e : CmdParam Fn Ptr)    (* ccmd==table[i].cmdname *)
| Exhausted                                (* table[i].cmdname.length()==0 *)
| Overrun.                                 (* no such row in the array *)
Arguments Found {Fn Ptr}.
Arguments Exhausted {Fn Ptr}.
Arguments Overrun {Fn Ptr}.

Fixpoint search {Fn Ptr : Type} (table : list (CmdParam Fn Ptr)) (i : nat)
    (ccmd : text) : lookup Fn Ptr :=
  match table with
  | [] => Overrun
  | e :: rest =>
      if size (cmdname e) =? 0 then Exhausted
      else if text_eqb ccmd (cmdname e) then Found i e
      else search rest (S i) ccmd
  end.

(** ** [CmdParam::process]

    The callbacks are recorded, not run.  The third argument of the handler,
    [current.substr(index).c_str()], is evaluated before the call: when
    [substr] throws, the handler is not entered. *)

Definition process {Fn Ptr : Type} (dm : data_model)
    (table : list (CmdParam Fn Ptr)) (cmdline : text) (st : parser) : run Fn Ptr :=
  let st0 := set_index (set_current st cmdline) 0 in
  let t := gettoken dm st0 in
  match value t with
  | Throw e => mkRun [] (Throws e) (after t)
  | Ok ccmd =>
      match valid t with
      | Some true =>
          match search table O ccmd with
          | Found i e =>
              let st1 := set_current (after t) cmdline in
              match substr (current st1) (index st1) (npos dm) with
              | Ok p => mkRun [handler (fp e) (Z.of_nat i) (arg e) p] Returns st1
              | Throw x => mkRun [] (Throws x) st1
              end
          | Exhausted => mkRun [notfoundfunc cmdline ccmd] Returns (after t)
          | Overrun => mkRun [] ReadsPastTable (after t)
          end
      | _ =>
          mkRun [printfunc "Unknown error:"%string; printfunc cmdline] Returns (after t)
      end
  end.

(** ** The demo table of [cmd.cpp] ([commands], under [DEMO]) *)

Inductive demo_fn := fn_help | fn_list | fn_cmd_exit | fn_cmd_val | fn_NULL.
Inductive demo_ptr := ptr_NULL | ptr_valueA | ptr_valueB | ptr_commands.

Definition commands : list (CmdParam demo_fn demo_ptr) :=
  [ mkCmd 1 "help"%string "Get help"%string fn_help ptr_NULL;
    mkCmd 2 "list"%string "Dummy list"%string fn_list ptr_NULL;
    mkCmd 3 "exit"%string "Quit the program"%string fn_cmd_exit ptr_NULL;
    mkCmd 4 "A"%string "View/set valueA"%string fn_cmd_val ptr_valueA;
    mkCmd 5 "B"%string "View/set valueB"%string fn_cmd_val ptr_valueB;
    mkCmd 6 "testhelp"%string "Test direct help function"%string fn_help ptr_commands;
    mkCmd 0 ""%string ""%string fn_NULL ptr_NULL ].

(** The static members before any line was submitted. *)
Definition initial : parser := mkParser [] 0 default_sep.

(** ** Vocabulary of the properties *)

(** Longest prefix of characters satisfying [p], and what follows it. *)
Fixpoint run_of (p : ascii -> bool) (s : text) : text :=
  match s with
  | c :: s' => if p c then c :: run_of p s' else []
  | [] => []
  end.

Fixpoint after_run (p : ascii -> bool) (s : text) : text :=
  match s with
  | c :: s' => if p c then after_run p s' else s
  | [] => []
  end.

Definition is_sep (sp : text) (c : ascii) : bool := mem c sp.
Definition non_sep (sp : text) (c : ascii) : bool := negb (mem c sp).

(** A token is a maximal run of characters outside the separator set; the
    first token of [s] follows the separators [s] starts with. *)
Definition first_token (sp s : text) : text :=
  run_of (non_sep sp) (after_run (is_sep sp) s).

(** What follows the first token. *)
Definition after_token (sp s : text) : text :=
  after_run (non_sep sp) (after_run (is_sep sp) s).

(** The token at the cursor: the first token of the rest of the line;
    empty when there is none. *)
Definition next_token (st : parser) : text :=
  first_token (sep st) (skipn (Z.to_nat (index st)) (current st)).

(** [gettoken] written over runs of characters: the reference the source's
    [find_first_not_of] / [find_first_of] / [substr] version is compared
    with. *)
Definition gettoken_runs (st : parser) : ret text :=
  let rest := skipn (Z.to_nat (index st)) (current st) in
  match after_run (is_sep (sep st)) rest with
  | [] => mkRet (Ok []) (Some false) st
  | _ :: _ =>
      let tok := first_token (sep st) rest in
      mkRet (Ok tok) (Some true)
        (set_index st
           match after_token (sep st) rest with
           | [] => UINT_MAX
           | _ :: _ => index st + size (run_of (is_sep (sep st)) rest) + size tok
           end)
  end.

(** [process] written over runs of characters, the reference for the
    source's version: nothing but the first token, what follows it and the
    outcome of the table loop decides the run. *)
Definition process_runs {Fn Ptr : Type} (table : list (CmdParam Fn Ptr))
    (cmdline : text) (st : parser) : run Fn Ptr :=
  let sp := sep st in
  match after_run (is_sep sp) cmdline with
  | [] =>
      mkRun [printfunc "Unknown error:"%string; printfunc cmdline] Returns
        (mkParser cmdline 0 sp)
  | _ :: _ =>
      let tok := first_token sp cmdline in
      let rem := after_token sp cmdline in
      let stop :=
        match rem with
        | [] => UINT_MAX
        | _ :: _ => size (run_of (is_sep sp) cmdline) + size tok
        end in
      match search table O tok with
      | Found i e =>
          match rem with
          | [] => mkRun [] (Throws out_of_range) (mkParser cmdline stop sp)
          | _ :: _ =>
              mkRun [handler (fp e) (Z.of_nat i) (arg e) rem] Returns
                (mkParser cmdline stop sp)
          end
      | Exhausted => mkRun [notfoundfunc cmdline tok] Returns (mkParser cmdline stop sp)
      | Overrun => mkRun [] ReadsPastTable (mkParser cmdline stop sp)
      end
  end.

(** The cursor is an [unsigned int] and the line is short enough for every
    offset into it to be one. *)
Definition representable (st : parser) : Prop :=
  0 <= index st <= UINT_MAX /\ size (current st) <= UINT_MAX.

(** The cursor is inside the line, or is [npos] cut to an [unsigned int]. *)
Definition cursor_ok (st : parser) : Prop :=
  index st <= size (current st) \/ index st = UINT_MAX.

(** The row [e] with another [id]. *)
Definition set_id {Fn Ptr : Type} (n : Z) (e : CmdParam Fn Ptr) : CmdParam Fn Ptr :=
  mkCmd n (cmdname e) (helptext e) (fp e) (arg e).

(** A row whose name is empty ends the table. *)
Definition terminated {Fn Ptr : Type} (table : list (CmdParam Fn Ptr)) : Prop :=
  exists e, In e table /\ cmdname e = [].

(** ** Textual rendering of integers *)

Definition digit_char (d : Z) : ascii :=
  ascii_of_N (Z.to_N (if d <? 10 then 48 + d else 87 + d)).

Fixpoint render_aux (fuel : nat) (base n : Z) (acc : text) : text :=
  match fuel with
  | O => acc
  | S f =>
      let acc' := digit_char (n mod base) :: acc in
      if n <? base then acc' else render_aux f base (n / base) acc'
  end.

(** Digits of [n >= 0] in [base], most significant first. *)
Definition render (base n : Z) : text :=
  render_aux (S (Z.to_nat (Z.log2 n))) base n [].

Definition signed (prefix : text) (base v : Z) : text :=
  if v <? 0 then "-"%char :: prefix ++ render base (- v) else prefix ++ render base v.

(** Modelled from the spec: the "standard decimal textual rendering" of an
    integer ([std::to_string], [printf("%d")]), which the source does not
    contain: a minus sign for a negative value, then the decimal digits
    without leading zeros. *)
Definition to_string (v : Z) : text := signed [] 10 v.

(** The same value written with the [0x] and the [0] prefix. *)
Definition to_hex (v : Z) : text := signed "0x"%string 16 v.
Definition to_octal (v : Z) : text := signed "0"%string 8 v.

(** ** A float library for examples

    A [float] is represented by the text it was converted from; nothing is
    out of range. *)
Definition symbolic_floats : FloatLib :=
  {| float := text;
     float_zero := lit "0.0";
     strtof_value := fun s => s;
     strtof_erange := fun _ => false |}.

(** ** Reading a line token by token *)

(** The part of the line the cursor has not passed. *)
Definition unread (st : parser) : text :=
  skipn (Z.to_nat (index st)) (current st).

(** [gettoken] called until it reports no token, at most [fuel] times: the
    tokens it returned and the state after the last call. *)
Fixpoint gettokens (fuel : nat) (dm : data_model) (st : parser) : list text * parser :=
  match fuel with
  | O => ([], st)
  | S f =>
      let t := gettoken dm st in
      match value t, valid t with
      | Ok tok, Some true =>
          let (ts, st') := gettokens f dm (after t) in (tok :: ts, st')
      | _, _ => ([], after t)
      end
  end.

(** ** The handlers [cmd_val] and [list] of the demo *)

(** The globals [valueA] and [valueB], and the statics [value] and [value2]
    of [list] (here [list_value], [list_value2]: [value] names a field
    above). *)
Record demo_vars {FL : FloatLib} := mkVars {
  valueA : float;
  valueB : float;
  list_value : float;
  list_value2 : float
}.
Arguments mkVars {FL}.

(** What the handlers write with [printf]. *)
Inductive output {FL : FloatLib} :=
| printf_f (v : float)             (* printf("%f\n", v) *)
| printf_ff (v v2 : float).        (* printf("%f %f\n", v, v2) *)
Arguments printf_f {FL}.
Arguments printf_ff {FL}.

(** How a handler ends: it returns, an exception leaves it, or it
    dereferences an [arg] that does not point to a [float]. *)
Inductive outcome := Done | Raised (e : exn) | WildPointer.

Record effect {FL : FloatLib} := mkEffect {
  result : outcome;
  vars : demo_vars;
  printed : list output;
  pars : parser
}.
Arguments mkEffect {FL}.

(** [*(float * )arg] *)
Definition load {FL : FloatLib} (arg : demo_ptr) (m : demo_vars) : option float :=
  match arg with
  | ptr_valueA => Some (valueA m)
  | ptr_valueB => Some (valueB m)
  | _ => None
  end.

(** [*(float * )arg = v] *)
Definition store {FL : FloatLib} (arg : demo_ptr) (v : float) (m : demo_vars)
    : option demo_vars :=
  match arg with
  | ptr_valueA => Some (mkVars v (valueB m) (list_value m) (list_value2 m))
  | ptr_valueB => Some (mkVars (valueA m) v (list_value m) (list_value2 m))
  | _ => None
  end.

(** [cmd_val(id, arg, p)]: neither [id] nor [p] is read. *)
Definition cmd_val {FL : FloatLib} (dm : data_model) (arg : demo_ptr)
    (st : parser) (m : demo_vars) : effect :=
  let r := getfloat dm st in
  match value r with
  | Throw e => mkEffect (Raised e) m [] (after r)
  | Ok v =>
      let written :=
        match valid r with
        | Some true => store arg v m
        | _ => Some m
        end in
      match written with
      | None => mkEffect WildPointer m [] (after r)
      | Some m' =>
          match load arg m' with
          | None => mkEffect WildPointer m' [] (after r)
          | Some x => mkEffect Done m' [printf_f x] (after r)
          end
      end
  end.

(** [list(n, arg, p)], here [list_handler] ([list] is the type of lists):
    none of the arguments is read. *)
Definition list_handler {FL : FloatLib} (dm : data_model) (st : parser) (m : demo_vars) : effect :=
  let r1 := getfloat dm st in
  match value r1 with
  | Throw e => mkEffect (Raised e) m [] (after r1)
  | Ok f1 =>
      let m1 :=
        match valid r1 with
        | Some true => mkVars (valueA m) (valueB m) f1 (list_value2 m)
        | _ => m
        end in
      let r2 := getfloat dm (after r1) in
      match value r2 with
      | Throw e => mkEffect (Raised e) m1 [] (after r2)
      | Ok f2 =>
          let m2 :=
            match valid r2 with
            | Some true => mkVars (valueA m1) (valueB m1) (list_value m1) f2
            | _ => m1
            end in
          mkEffect Done m2 [printf_ff (list_value m2) (list_value2 m2)] (after r2)
      end
  end.

(** * Properties *)

(** ** Runs of characters *)

Lemma run_split (p : ascii -> bool) (s : text) :
  run_of p s ++ after_run p s = s.
Proof.
  induction s as [|c s IH]; simpl; [reflexivity|].
  destruct (p c); simpl; [now rewrite IH | reflexivity].
Qed.

Lemma run_of_all (p : ascii -> bool) (s : text) :
  Forall (fun c => p c = true) (run_of p s).
Proof.
  induction s as [|c s IH]; simpl; [constructor|].
  destruct (p c) eqn:E; constructor; assumption.
Qed.

Lemma after_run_head (p : ascii -> bool) (s : text) c r :
  after_run p s = c :: r -> p c = false.
Proof.
  induction s as [|d s IH]; simpl; [discriminate|].
  destruct (p d) eqn:E; [exact IH|].
  intros H; injection H as -> _; exact E.
Qed.

Lemma run_of_app_all (p : ascii -> bool) (a b : text) :
  Forall (fun c => p c = true) a -> run_of p (a ++ b) = a ++ run_of p b.
Proof.
  induction 1 as [|c a Hc _ IH]; simpl; [reflexivity|].
  now rewrite Hc, IH.
Qed.

Lemma after_run_app_all (p : ascii -> bool) (a b : text) :
  Forall (fun c => p c = true) a -> after_run p (a ++ b) = after_run p b.
Proof.
  induction 1 as [|c a Hc _ IH]; simpl; [reflexivity|].
  now rewrite Hc.
Qed.

Lemma run_of_stop (p : ascii -> bool) c (r : text) :
  p c = false -> run_of p (c :: r) = [] /\ after_run p (c :: r) = c :: r.
Proof. intros H; simpl; rewrite H; split; reflexivity. Qed.

Lemma size_nonneg (s : text) : 0 <= size s.
Proof. unfold size; lia. Qed.

Lemma size_app (a b : text) : size (a ++ b) = size a + size b.
Proof. unfold size; rewrite length_app; lia. Qed.

Lemma size_cons c (s : text) : size (c :: s) = 1 + size s.
Proof. unfold size; simpl List.length; lia. Qed.

(** ** [find_first_of] and [find_first_not_of] over runs *)

Lemma find_if_runs (p q : ascii -> bool) (s : text) :
  (forall c, q c = negb (p c)) ->
  find_if q s = match after_run p s with
                | [] => None
                | _ :: _ => Some (List.length (run_of p s))
                end.
Proof.
  intros Hq; induction s as [|c s IH]; simpl; [reflexivity|].
  rewrite Hq; destruct (p c); simpl; [|reflexivity].
  rewrite IH; destruct (after_run p s); reflexivity.
Qed.

Lemma find_from_runs (dm : data_model) (p q : ascii -> bool) (s : text) (pos : Z) :
  (forall c, q c = negb (p c)) -> 0 <= pos ->
  find_from dm q s pos =
    match after_run p (skipn (Z.to_nat pos) s) with
    | [] => npos dm
    | _ :: _ => pos + size (run_of p (skipn (Z.to_nat pos) s))
    end.
Proof.
  intros Hq Hpos; unfold find_from.
  destruct (size s <=? pos) eqn:E.
  - apply Z.leb_le in E.
    rewrite skipn_all2 by (unfold size in E; lia). reflexivity.
  - rewrite (find_if_runs p q _ Hq).
    destruct (after_run p (skipn (Z.to_nat pos) s)); reflexivity.
Qed.

Lemma npos_ge (dm : data_model) : UINT_MAX <= npos dm.
Proof. destruct dm; unfold npos, UINT_MAX; simpl; lia. Qed.

Lemma to_uint_npos (dm : data_model) : to_uint (npos dm) = UINT_MAX.
Proof. destruct dm; reflexivity. Qed.

Lemma to_uint_small (z : Z) : 0 <= z <= UINT_MAX -> to_uint z = z.
Proof. unfold to_uint, UINT_MAX; intros; apply Z.mod_small; lia. Qed.

Lemma to_size_t_small (dm : data_model) (z : Z) :
  0 <= z <= UINT_MAX -> to_size_t dm z = z.
Proof.
  unfold to_size_t, UINT_MAX; intros; apply Z.mod_small.
  destruct dm; simpl; lia.
Qed.

Lemma skipn_size (s : text) (n : nat) :
  size (skipn n s) = Z.max 0 (size s - Z.of_nat n).
Proof. unfold size; rewrite length_skipn; lia. Qed.

(** ** [gettoken] computes the token the runs define *)

Lemma gettoken_eq (dm : data_model) (st : parser) :
  representable st -> gettoken dm st = gettoken_runs st.
Proof.
  destruct st as [cur idx sp]; unfold representable; simpl.
  intros [[Hlo Hhi] Hsz].
  unfold gettoken, gettoken_runs, find_first_not_of, find_first_of; simpl.
  rewrite (find_from_runs dm (is_sep sp) _ cur idx) by (reflexivity || assumption).
  set (rest := skipn (Z.to_nat idx) cur).
  pose proof (run_split (is_sep sp) rest) as Hrest.
  pose proof (skipn_size cur (Z.to_nat idx)) as Hlen; fold rest in Hlen.
  pose proof (npos_ge dm) as Hnp.
  destruct (after_run (is_sep sp) rest) as [|b body'] eqn:Eb.
  { rewrite Z.eqb_refl; reflexivity. }
  set (body := b :: body') in *.
  set (blanks := run_of (is_sep sp) rest) in *.
  assert (Hrl : size rest = size blanks + size body) by (rewrite <- Hrest; apply size_app).
  assert (Hbody : 1 <= size body) by (unfold body; rewrite size_cons; pose proof (size_nonneg body'); lia).
  pose proof (size_nonneg blanks) as Hbl.
  assert (Hn1 : idx + size blanks < size cur) by lia.
  replace (idx + size blanks =? npos dm) with false by (symmetry; apply Z.eqb_neq; lia).
  assert (Hskip : skipn (Z.to_nat (idx + size blanks)) cur = body).
  { replace (Z.to_nat (idx + size blanks)) with (List.length blanks + Z.to_nat idx)%nat
      by (unfold size; lia).
    rewrite <- skipn_skipn; fold rest.
    rewrite <- Hrest at 1. rewrite skipn_app, skipn_all, Nat.sub_diag. reflexivity. }
  rewrite (find_from_runs dm (non_sep sp) _ cur (idx + size blanks))
    by (try lia; intros c; unfold non_sep; now rewrite negb_involutive).
  rewrite Hskip.
  unfold first_token, after_token; rewrite Eb; fold body.
  pose proof (run_split (non_sep sp) body) as Hsplit.
  set (tok := run_of (non_sep sp) body) in *.
  pose proof (size_nonneg tok) as Htok.
  assert (Hbt : size body = size tok + size (after_run (non_sep sp) body))
    by (rewrite <- Hsplit at 1; apply size_app).
  unfold substr.
  replace (size cur <? idx + size blanks) with false by (symmetry; apply Z.ltb_ge; lia).
  rewrite Hskip.
  destruct (after_run (non_sep sp) body) as [|c tl] eqn:Et.
  - rewrite to_uint_npos.
    f_equal. f_equal.
    rewrite app_nil_r in Hsplit.
    assert (Hmin : Z.min (if negb (UINT_MAX =? npos dm)
                          then to_size_t dm (UINT_MAX - (idx + size blanks))
                          else npos dm) (size cur - (idx + size blanks))
                   = size body).
    { destruct (UINT_MAX =? npos dm); simpl negb; cbv iota.
      - lia.
      - rewrite to_size_t_small by lia. lia. }
    rewrite Hmin. rewrite <- Hsplit at 2.
    apply firstn_all2. rewrite Hsplit. unfold size. lia.
  - assert (Hc : 1 <= size (c :: tl)) by (rewrite size_cons; pose proof (size_nonneg tl); lia).
    rewrite to_uint_small by lia.
    replace (idx + size blanks + size tok =? npos dm) with false
      by (symmetry; apply Z.eqb_neq; lia).
    simpl negb; cbv iota.
    replace (idx + size blanks + size tok - (idx + size blanks)) with (size tok) by lia.
    rewrite to_size_t_small by lia.
    f_equal. f_equal.
    rewrite Z.min_l by lia.
    rewrite <- Hsplit. unfold size. rewrite Nat2Z.id.
    rewrite firstn_app, firstn_all, Nat.sub_diag. simpl. apply app_nil_r.
Qed.

Lemma line_split (sp s : text) :
  s = run_of (is_sep sp) s ++ first_token sp s ++ after_token sp s.
Proof.
  unfold first_token, after_token.
  now rewrite (run_split (non_sep sp)), (run_split (is_sep sp)).
Qed.

Lemma first_token_nonempty (sp s : text) c r :
  after_run (is_sep sp) s = c :: r -> first_token sp s <> [].
Proof.
  intros E; unfold first_token; rewrite E; simpl.
  apply after_run_head in E. unfold is_sep in E. unfold non_sep.
  rewrite E; simpl; discriminate.
Qed.

Lemma first_token_no_sep (sp s : text) :
  Forall (fun c => mem c sp = false) (first_token sp s).
Proof.
  unfold first_token.
  eapply Forall_impl; [|apply run_of_all].
  intros c; unfold non_sep. now destruct (mem c sp).
Qed.

Lemma after_token_head (sp s : text) c r :
  after_token sp s = c :: r -> mem c sp = true.
Proof.
  unfold after_token; intros E; apply after_run_head in E.
  unfold non_sep in E. now destruct (mem c sp).
Qed.

(** ** [process] computes the run the runs of characters define *)

Lemma process_eq {Fn Ptr : Type} (dm : data_model) (table : list (CmdParam Fn Ptr))
    (cmdline : text) (st : parser) :
  size cmdline < UINT_MAX ->
  process dm table cmdline st = process_runs table cmdline st.
Proof.
  intros Hsz. unfold process, process_runs.
  set (st0 := set_index (set_current st cmdline) 0).
  assert (Hrep : representable st0)
    by (unfold representable, st0, UINT_MAX; simpl; unfold UINT_MAX in Hsz; lia).
  rewrite (gettoken_eq dm st0 Hrep).
  unfold gettoken_runs, st0; simpl.
  destruct (after_run (is_sep (sep st)) cmdline) as [|b body] eqn:Eb; simpl.
  { reflexivity. }
  destruct (search table 0 (first_token (sep st) cmdline)) as [i e| |]; try reflexivity.
  destruct (after_token (sep st) cmdline) as [|c r] eqn:Er; unfold substr;
    cbn [current index sep set_current set_index].
  - replace (size cmdline <? UINT_MAX) with true by (symmetry; apply Z.ltb_lt; lia).
    reflexivity.
  - pose proof (line_split (sep st) cmdline) as Hs. rewrite Er in Hs.
    set (blanks := run_of (is_sep (sep st)) cmdline) in *.
    set (tok := first_token (sep st) cmdline) in *.
    assert (Hlen : size cmdline = size blanks + size tok + size (c :: r))
      by (rewrite Hs at 1; rewrite !size_app; lia).
    pose proof (size_nonneg blanks); pose proof (size_nonneg tok).
    pose proof (size_nonneg r). rewrite size_cons in Hlen.
    replace (size cmdline <? size blanks + size tok) with false
      by (symmetry; apply Z.ltb_ge; lia).
    assert (Hk : skipn (Z.to_nat (size blanks + size tok)) cmdline = c :: r).
    { rewrite Hs at 1. rewrite app_assoc.
      replace (Z.to_nat (size blanks + size tok)) with (List.length (blanks ++ tok))
        by (rewrite length_app; unfold size; lia).
      rewrite skipn_app, skipn_all, Nat.sub_diag. reflexivity. }
    rewrite Hk.
    rewrite firstn_all2; [reflexivity|].
    pose proof (npos_ge dm). unfold size in *. simpl List.length in *. lia.
Qed.

(** ** The table loop *)

Lemma text_eqb_eq (a b : text) : text_eqb a b = true <-> a = b.
Proof.
  unfold text_eqb; destruct (list_eq_dec ascii_dec a b); split; congruence.
Qed.

Lemma size_zero (s : text) : (size s =? 0) = true <-> s = [].
Proof.
  rewrite Z.eqb_eq; destruct s; [tauto|].
  rewrite size_cons; pose proof (size_nonneg s); split; [lia|discriminate].
Qed.

Lemma search_past_empty_name {Fn Ptr : Type} (t1 t2 : list (CmdParam Fn Ptr)) s i tok :
  cmdname s = [] -> search (t1 ++ s :: t2) i tok = search (t1 ++ [s]) i tok.
Proof.
  intros Hs; revert i; induction t1 as [|e t1 IH]; intros i; simpl.
  - now rewrite Hs.
  - destruct (size (cmdname e) =? 0); [reflexivity|].
    destruct (text_eqb tok (cmdname e)); [reflexivity|apply IH].
Qed.

Lemma search_found {Fn Ptr : Type} (t : list (CmdParam Fn Ptr)) i tok j e :
  search t i tok = Found j e ->
  exists before later,
    t = before ++ e :: later /\ j = (i + List.length before)%nat /\
    Forall (fun x => cmdname x <> [] /\ cmdname x <> tok) before /\
    cmdname e = tok /\ cmdname e <> [].
Proof.
  revert i; induction t as [|x t IH]; intros i; simpl; [discriminate|].
  destruct (size (cmdname x) =? 0) eqn:Ez; [discriminate|].
  assert (Hx : cmdname x <> []) by (intros H; apply size_zero in H; congruence).
  destruct (text_eqb tok (cmdname x)) eqn:Em.
  - intros H; injection H as <- <-. apply text_eqb_eq in Em.
    exists [], t; simpl; repeat split; auto.
  - intros H; destruct (IH _ H) as (before & later & -> & -> & Hb & Hn & He).
    exists (x :: before), later; simpl; repeat split; auto; try lia.
    constructor; [|assumption]. split; [assumption|].
    intros Heq. symmetry in Heq. apply text_eqb_eq in Heq. congruence.
Qed.

Lemma search_first {Fn Ptr : Type} (before later : list (CmdParam Fn Ptr)) e i tok :
  Forall (fun x => cmdname x <> [] /\ cmdname x <> tok) before ->
  cmdname e = tok -> tok <> [] ->
  search (before ++ e :: later) i tok = Found (i + List.length before)%nat e.
Proof.
  intros Hb He Hne; revert i; induction Hb as [|x before [Hx1 Hx2] _ IH]; intros i; simpl.
  - replace (size (cmdname e) =? 0) with false
      by (symmetry; apply not_true_is_false; rewrite size_zero; congruence).
    replace (text_eqb tok (cmdname e)) with true by (symmetry; now apply text_eqb_eq).
    now rewrite Nat.add_0_r.
  - replace (size (cmdname x) =? 0) with false
      by (symmetry; apply not_true_is_false; now rewrite size_zero).
    replace (text_eqb tok (cmdname x)) with false
      by (symmetry; apply not_true_is_false; rewrite text_eqb_eq; congruence).
    rewrite IH. f_equal. lia.
Qed.

Lemma search_exhausted {Fn Ptr : Type} (t : list (CmdParam Fn Ptr)) i tok :
  terminated t -> (forall e, In e t -> cmdname e <> tok) ->
  search t i tok = Exhausted.
Proof.
  intros (s & Hin & Hs) Hno; revert i; induction t as [|x t IH]; intros i; simpl.
  - destruct Hin.
  - destruct (size (cmdname x) =? 0) eqn:Ez; [reflexivity|].
    replace (text_eqb tok (cmdname x)) with false
      by (symmetry; apply not_true_is_false; rewrite text_eqb_eq;
          intros ->; now apply (Hno x (or_introl eq_refl))).
    destruct Hin as [->|Hin].
    + apply size_zero in Hs. congruence.
    + apply IH; [assumption|]. intros e He; apply Hno; now right.
Qed.

(** ** Blank lines *)

Lemma gettoken_blank (dm : data_model) (st : parser) :
  0 <= index st ->
  after_run (is_sep (sep st)) (skipn (Z.to_nat (index st)) (current st)) = [] ->
  gettoken dm st = mkRet (Ok []) (Some false) st.
Proof.
  intros Hlo Hb. unfold gettoken, find_first_not_of.
  rewrite (find_from_runs dm (is_sep (sep st))) by (reflexivity || assumption).
  rewrite Hb, Z.eqb_refl. reflexivity.
Qed.

Lemma after_run_blank (sp s : text) :
  Forall (fun c => mem c sp = true) s -> after_run (is_sep sp) s = [].
Proof.
  intros H. rewrite <- (app_nil_r s). now rewrite after_run_app_all.
Qed.

(** C6.  A line that is empty or made of separators only: [process] calls
    [printfunc] twice, with the generic message and with the line, and
    returns; the table is not read (the run is the same for every table, the
    empty array included), and neither [notfoundfunc] nor a handler is
    called. *)
Theorem process_blank_line {Fn Ptr : Type} (dm : data_model)
    (table : list (CmdParam Fn Ptr)) (cmdline : text) (st : parser) :
  Forall (fun c => mem c (sep st) = true) cmdline ->
  process dm table cmdline st =
    mkRun [printfunc "Unknown error:"%string; printfunc cmdline] Returns
      (mkParser cmdline 0 (sep st)).
Proof.
  intros Hblank. unfold process.
  rewrite gettoken_blank; simpl; try lia; [reflexivity|].
  now apply after_run_blank.
Qed.

Lemma process_blank_line_witness :
  Forall (fun c => mem c (sep initial) = true) (lit "   ") /\
  process LP64 commands (lit "   ") initial =
    mkRun [printfunc "Unknown error:"%string; printfunc (lit "   ")] Returns
      (mkParser (lit "   ") 0 default_sep).
Proof.
  assert (H : Forall (fun c => mem c (sep initial) = true) (lit "   "))
    by (repeat constructor).
  split; [exact H | exact (process_blank_line LP64 commands (lit "   ") initial H)].
Defined.

Lemma first_token_present (sp s : text) :
  first_token sp s <> [] -> exists c r, after_run (is_sep sp) s = c :: r.
Proof.
  unfold first_token. destruct (after_run (is_sep sp) s) as [|c r]; simpl.
  - congruence.
  - intros _; now exists c, r.
Qed.

(** ** Unknown commands *)

(** C5.  A line whose first token is not the name of any row: [process]
    calls [notfoundfunc] with the line and the token, calls no handler, and
    returns.  The table is an array ended by a row with an empty name, and
    the line is shorter than [UINT_MAX] characters. *)
Theorem process_unknown_command {Fn Ptr : Type} (dm : data_model)
    (table : list (CmdParam Fn Ptr)) (cmdline : text) (st : parser) :
  size cmdline < UINT_MAX ->
  terminated table ->
  first_token (sep st) cmdline <> [] ->
  (forall e, In e table -> cmdname e <> first_token (sep st) cmdline) ->
  calls (process dm table cmdline st) =
    [notfoundfunc cmdline (first_token (sep st) cmdline)] /\
  how (process dm table cmdline st) = Returns.
Proof.
  intros Hsz Hterm Htok Hno.
  rewrite process_eq by assumption. unfold process_runs.
  destruct (first_token_present _ _ Htok) as (c & r & ->).
  rewrite (search_exhausted table 0 _ Hterm Hno). split; reflexivity.
Qed.

Lemma process_unknown_command_witness :
  size (lit "unknown foo") < UINT_MAX /\
  terminated commands /\
  first_token (sep initial) (lit "unknown foo") <> [] /\
  calls (process LP64 commands (lit "unknown foo") initial) =
    [notfoundfunc (lit "unknown foo") (lit "unknown")] /\
  how (process LP64 commands (lit "unknown foo") initial) = Returns.
Proof.
  assert (H1 : size (lit "unknown foo") < UINT_MAX) by reflexivity.
  assert (H2 : terminated commands).
  { exists (mkCmd 0 (lit "") (lit "") fn_NULL ptr_NULL); split; [|reflexivity].
    simpl; tauto. }
  assert (H3 : first_token (sep initial) (lit "unknown foo") <> []) by discriminate.
  assert (H4 : forall e, In e commands ->
                 cmdname e <> first_token (sep initial) (lit "unknown foo")).
  { intros e He; simpl in He.
    repeat (destruct He as [<-|He]; [discriminate|]). destruct He. }
  split; [exact H1|]. split; [exact H2|]. split; [exact H3|].
  exact (process_unknown_command LP64 commands (lit "unknown foo") initial H1 H2 H3 H4).
Defined.

(** ** Matched commands *)

Lemma process_found {Fn Ptr : Type} (dm : data_model)
    (before later : list (CmdParam Fn Ptr)) (e : CmdParam Fn Ptr)
    (cmdline : text) (st : parser) :
  size cmdline < UINT_MAX ->
  first_token (sep st) cmdline <> [] ->
  Forall (fun x => cmdname x <> [] /\ cmdname x <> first_token (sep st) cmdline) before ->
  cmdname e = first_token (sep st) cmdline ->
  process dm (before ++ e :: later) cmdline st =
    match after_token (sep st) cmdline with
    | [] => mkRun [] (Throws out_of_range) (mkParser cmdline UINT_MAX (sep st))
    | _ :: _ =>
        mkRun [handler (fp e) (Z.of_nat (List.length before)) (arg e)
                 (after_token (sep st) cmdline)] Returns
          (mkParser cmdline
             (size (run_of (is_sep (sep st)) cmdline)
              + size (first_token (sep st) cmdline)) (sep st))
    end.
Proof.
  intros Hsz Htok Hb He.
  rewrite process_eq by assumption. unfold process_runs.
  destruct (first_token_present _ _ Htok) as (c & r & ->).
  rewrite (search_first before later e 0 _ Hb He Htok). simpl Nat.add.
  destruct (after_token (sep st) cmdline); reflexivity.
Qed.

(** C7.  When the matched command word is followed by at least one more
    character, the handler receives the line from the first character after
    the word on; that character is a separator, which is not skipped.  The
    line ["A 3.5"] with the demo table: the handler of row [A] receives
    [" 3.5"], and a [getfloat] in the state [process] leaves stores [true]
    through [valid] and returns what the library converts ["3.5"] to. *)
Theorem process_remainder {FL : FloatLib} {Fn Ptr : Type} (dm : data_model)
    (before later : list (CmdParam Fn Ptr)) (e : CmdParam Fn Ptr)
    (cmdline : text) (st : parser) :
  size cmdline < UINT_MAX ->
  first_token (sep st) cmdline <> [] ->
  after_token (sep st) cmdline <> [] ->
  Forall (fun x => cmdname x <> [] /\ cmdname x <> first_token (sep st) cmdline) before ->
  cmdname e = first_token (sep st) cmdline ->
  (calls (process dm (before ++ e :: later) cmdline st) =
     [handler (fp e) (Z.of_nat (List.length before)) (arg e)
        (after_token (sep st) cmdline)] /\
   how (process dm (before ++ e :: later) cmdline st) = Returns /\
   cmdline = run_of (is_sep (sep st)) cmdline
             ++ first_token (sep st) cmdline ++ after_token (sep st) cmdline /\
   starts_with (is_sep (sep st)) (after_token (sep st) cmdline) = true)
  /\
  (process dm commands (lit "A 3.5") initial =
     mkRun [handler fn_cmd_val 3 ptr_valueA (lit " 3.5")] Returns
       (mkParser (lit "A 3.5") 1 default_sep) /\
   getfloat dm (mkParser (lit "A 3.5") 1 default_sep) =
     mkRet (if strtof_erange (lit "3.5") then Throw out_of_range
            else Ok (strtof_value (lit "3.5")))
       (Some true) (mkParser (lit "A 3.5") UINT_MAX default_sep)).
Proof.
  intros Hsz Htok Hrem Hb He. split.
  - rewrite (process_found dm before later e cmdline st Hsz Htok Hb He).
    destruct (after_token (sep st) cmdline) as [|c r] eqn:Er; [congruence|].
    repeat split.
    + rewrite <- Er. apply line_split.
    + simpl. now apply (after_token_head (sep st) cmdline c r).
  - split.
    + destruct dm; reflexivity.
    + unfold getfloat, getnumber.
      replace (gettoken dm (mkParser (lit "A 3.5") 1 default_sep))
        with (mkRet (Ok (lit "3.5")) (Some true) (mkParser (lit "A 3.5") UINT_MAX default_sep))
        by (destruct dm; reflexivity).
      cbn [value valid after]. unfold stof, strtof.
      replace (float_subject (lit "3.5")) with true by reflexivity.
      destruct (strtof_erange (lit "3.5")); reflexivity.
Qed.

Lemma process_remainder_witness :
  size (lit "A 3.5") < UINT_MAX /\
  first_token (sep initial) (lit "A 3.5") <> [] /\
  after_token (sep initial) (lit "A 3.5") <> [] /\
  calls (process LP64 (firstn 3 commands ++ nth 3 commands (mkCmd 0 [] [] fn_NULL ptr_NULL)
                         :: skipn 4 commands) (lit "A 3.5") initial) =
    [handler fn_cmd_val 3 ptr_valueA (lit " 3.5")] /\
  value (@getfloat symbolic_floats LP64 (mkParser (lit "A 3.5") 1 default_sep)) =
    Ok (lit "3.5").
Proof.
  assert (H1 : size (lit "A 3.5") < UINT_MAX) by reflexivity.
  assert (H2 : first_token (sep initial) (lit "A 3.5") <> []) by discriminate.
  assert (H3 : after_token (sep initial) (lit "A 3.5") <> []) by discriminate.
  assert (H4 : Forall (fun x : CmdParam demo_fn demo_ptr =>
                         cmdname x <> [] /\
                         cmdname x <> first_token (sep initial) (lit "A 3.5"))
                 (firstn 3 commands))
    by (repeat constructor; discriminate).
  assert (H5 : cmdname (nth 3 commands (mkCmd 0 [] [] fn_NULL ptr_NULL)) =
               first_token (sep initial) (lit "A 3.5")) by reflexivity.
  pose proof (@process_remainder symbolic_floats _ _ LP64 (firstn 3 commands)
                (skipn 4 commands) _ (lit "A 3.5") initial H1 H2 H3 H4 H5)
    as [[Hc _] [_ Hf]].
  split; [exact H1|]. split; [exact H2|]. split; [exact H3|].
  split; [exact Hc|]. rewrite Hf. reflexivity.
Defined.

(** C2.  When the matched command word ends the line, [process] evaluates
    [current.substr(index)] with [index] holding [npos] cut to an
    [unsigned int]: [std::out_of_range] leaves [process] and no handler is
    invoked, so no empty remainder is ever handed over. *)
Theorem process_throws_at_end_of_line {Fn Ptr : Type} (dm : data_model)
    (before later : list (CmdParam Fn Ptr)) (e : CmdParam Fn Ptr)
    (cmdline : text) (st : parser) :
  size cmdline < UINT_MAX ->
  first_token (sep st) cmdline <> [] ->
  after_token (sep st) cmdline = [] ->
  Forall (fun x => cmdname x <> [] /\ cmdname x <> first_token (sep st) cmdline) before ->
  cmdname e = first_token (sep st) cmdline ->
  process dm (before ++ e :: later) cmdline st =
    mkRun [] (Throws out_of_range) (mkParser cmdline UINT_MAX (sep st)).
Proof.
  intros Hsz Htok Hrem Hb He.
  rewrite (process_found dm before later e cmdline st Hsz Htok Hb He).
  now rewrite Hrem.
Qed.

Lemma process_throws_at_end_of_line_witness :
  size (lit "help") < UINT_MAX /\
  first_token (sep initial) (lit "help") <> [] /\
  after_token (sep initial) (lit "help") = [] /\
  process LP64 ([] ++ mkCmd 1 (lit "help") (lit "Get help") fn_help ptr_NULL
                   :: skipn 1 commands) (lit "help") initial =
    mkRun [] (Throws out_of_range) (mkParser (lit "help") UINT_MAX default_sep).
Proof.
  assert (H1 : size (lit "help") < UINT_MAX) by reflexivity.
  assert (H2 : first_token (sep initial) (lit "help") <> []) by discriminate.
  assert (H3 : after_token (sep initial) (lit "help") = []) by reflexivity.
  split; [exact H1|]. split; [exact H2|]. split; [exact H3|].
  exact (process_throws_at_end_of_line LP64 []
           (skipn 1 commands) (mkCmd 1 (lit "help") (lit "Get help") fn_help ptr_NULL)
           (lit "help") initial H1 H2 H3 (Forall_nil _) eq_refl).
Defined.

Lemma search_set_id {Fn Ptr : Type} (g : CmdParam Fn Ptr -> Z)
    (t : list (CmdParam Fn Ptr)) i tok :
  search (map (fun e => set_id (g e) e) t) i tok =
    match search t i tok with
    | Found j e => Found j (set_id (g e) e)
    | Exhausted => Exhausted
    | Overrun => Overrun
    end.
Proof.
  revert i; induction t as [|x t IH]; intros i; simpl; [reflexivity|].
  destruct (size (cmdname x) =? 0); [reflexivity|].
  destruct (text_eqb tok (cmdname x)); [reflexivity|apply IH].
Qed.

(** C1.  The first argument of the handler is the loop counter [i], the
    position of the row in the table, not the row's [id]: for ["help\n"] the
    handler of the first demo row, whose [id] is 1, is called with 0.  The
    [id] of the rows is never read: whatever the rows hold there, the run is
    the same. *)
Theorem process_passes_row_number (dm : data_model) :
  (process dm commands (lit "help" ++ ["010"%char]) initial =
     mkRun [handler fn_help 0 ptr_NULL ["010"%char]] Returns
       (mkParser (lit "help" ++ ["010"%char]) 4 default_sep) /\
   option_map id (nth_error commands 0) = Some 1) /\
  forall (Fn Ptr : Type) (g : CmdParam Fn Ptr -> Z) (table : list (CmdParam Fn Ptr))
         (cmdline : text) (st : parser),
    process dm (map (fun e => set_id (g e) e) table) cmdline st =
    process dm table cmdline st.
Proof.
  split.
  - split; [destruct dm|]; reflexivity.
  - intros Fn Ptr g table cmdline st. unfold process.
    destruct (value (gettoken dm _)) as [ccmd|x]; [|reflexivity].
    destruct (valid (gettoken dm _)) as [[|]|]; try reflexivity.
    rewrite search_set_id.
    destruct (search table 0 ccmd) as [i e| |]; reflexivity.
Qed.

(** ** The end of the table *)

Lemma search_reaches_empty_name {Fn Ptr : Type} (t1 t2 : list (CmdParam Fn Ptr)) s i tok :
  cmdname s = [] -> search (t1 ++ s :: t2) i tok <> Overrun.
Proof.
  intros Hs; revert i; induction t1 as [|e t1 IH]; intros i; simpl.
  - rewrite Hs. discriminate.
  - destruct (size (cmdname e) =? 0); [discriminate|].
    destruct (text_eqb tok (cmdname e)); [discriminate|apply IH].
Qed.

(** C8.  The loop of [process] stops at a row with an empty name.  With
    such a row in the array the loop never reads past the array; what the
    array holds after that row does not change the run; a command word that
    names no row before it is reported to [notfoundfunc], also when a row
    after it has that name; and a handler that is invoked belongs to a row
    before it, whose name is not empty. *)
Theorem process_stops_at_empty_name {Fn Ptr : Type} (dm : data_model)
    (t1 t2 : list (CmdParam Fn Ptr)) (s : CmdParam Fn Ptr)
    (cmdline : text) (st : parser) :
  cmdname s = [] ->
  process dm (t1 ++ s :: t2) cmdline st = process dm (t1 ++ [s]) cmdline st /\
  how (process dm (t1 ++ s :: t2) cmdline st) <> ReadsPastTable /\
  (size cmdline < UINT_MAX ->
   first_token (sep st) cmdline <> [] ->
   Forall (fun x => cmdname x <> first_token (sep st) cmdline) t1 ->
   calls (process dm (t1 ++ s :: t2) cmdline st) =
     [notfoundfunc cmdline (first_token (sep st) cmdline)] /\
   how (process dm (t1 ++ s :: t2) cmdline st) = Returns) /\
  forall f n a p,
    In (handler f n a p) (calls (process dm (t1 ++ s :: t2) cmdline st)) ->
    exists e, nth_error t1 (Z.to_nat n) = Some e /\ 0 <= n < Z.of_nat (List.length t1) /\
              f = fp e /\ a = arg e /\ cmdname e <> [].
Proof.
  intros Hs. split; [|split; [|split]].
  - unfold process. destruct (value (gettoken dm _)) as [ccmd|x]; [|reflexivity].
    destruct (valid (gettoken dm _)) as [[|]|]; try reflexivity.
    now rewrite (search_past_empty_name t1 t2 s 0 ccmd Hs).
  - unfold process. destruct (value (gettoken dm _)) as [ccmd|x]; [|discriminate].
    destruct (valid (gettoken dm _)) as [[|]|]; try discriminate.
    pose proof (search_reaches_empty_name t1 t2 s 0 ccmd Hs) as Hno.
    destruct (search (t1 ++ s :: t2) 0 ccmd) as [i e| |]; [|discriminate|congruence].
    destruct (substr _ _ _); discriminate.
  - intros Hsz Htok Hno.
    rewrite process_eq by assumption. unfold process_runs.
    destruct (first_token_present _ _ Htok) as (c & r & ->).
    rewrite (search_past_empty_name t1 t2 s 0 _ Hs).
    rewrite (search_exhausted (t1 ++ [s]) 0 (first_token (sep st) cmdline)).
    + split; reflexivity.
    + exists s. split; [apply in_or_app; right; now left|exact Hs].
    + intros e He. apply in_app_or in He. destruct He as [He|[<-|[]]].
      * rewrite Forall_forall in Hno. now apply Hno.
      * congruence.
  - intros f n a p. unfold process.
    destruct (value (gettoken dm _)) as [ccmd|x]; [|intros []].
    destruct (valid (gettoken dm _)) as [[|]|];
      try (simpl; intros [H|[H|[]]]; discriminate).
    destruct (search (t1 ++ s :: t2) 0 ccmd) as [i e| |] eqn:Es;
      [|simpl; intros [H|[]]; discriminate|intros []].
    destruct (substr _ _ _); [|intros []].
    simpl. intros [H|[]]. injection H as <- <- <- _.
    destruct (search_found _ _ _ _ _ Es) as (before & later & Ht & -> & Hb & He & Hne).
    simpl Nat.add. rewrite Nat2Z.id.
    assert (Hlt : (List.length before < List.length t1)%nat).
    { destruct (Nat.lt_ge_cases (List.length before) (List.length t1)) as [|Hge]; [assumption|].
      exfalso.
      assert (Hnth : nth_error (t1 ++ s :: t2) (List.length t1) = Some s)
        by (rewrite nth_error_app2, Nat.sub_diag by lia; reflexivity).
      rewrite Ht in Hnth.
      destruct (Nat.eq_dec (List.length t1) (List.length before)) as [E|E].
      - rewrite E, nth_error_app2, Nat.sub_diag in Hnth by lia.
        simpl in Hnth. congruence.
      - rewrite nth_error_app1 in Hnth by lia.
        apply nth_error_In in Hnth.
        rewrite Forall_forall in Hb. apply Hb in Hnth. tauto. }
    exists e. repeat split; auto; try lia.
    assert (Hnth : nth_error (t1 ++ s :: t2) (List.length before) = Some e)
      by (rewrite Ht, nth_error_app2, Nat.sub_diag by lia; reflexivity).
    now rewrite nth_error_app1 in Hnth by lia.
Qed.

Lemma process_stops_at_empty_name_witness :
  cmdname (mkCmd 0 (lit "") (lit "") fn_NULL ptr_NULL) = [] /\
  size (lit "quit now") < UINT_MAX /\
  first_token (sep initial) (lit "quit now") <> [] /\
  calls (process LP64 (firstn 6 commands ++ mkCmd 0 (lit "") (lit "") fn_NULL ptr_NULL
                         :: [mkCmd 7 (lit "quit") (lit "Quit") fn_cmd_exit ptr_NULL])
           (lit "quit now") initial) =
    [notfoundfunc (lit "quit now") (lit "quit")] /\
  how (process LP64 (firstn 6 commands ++ mkCmd 0 (lit "") (lit "") fn_NULL ptr_NULL
                       :: [mkCmd 7 (lit "quit") (lit "Quit") fn_cmd_exit ptr_NULL])
         (lit "quit now") initial) = Returns.
Proof.
  assert (H1 : size (lit "quit now") < UINT_MAX) by reflexivity.
  assert (H2 : first_token (sep initial) (lit "quit now") <> []) by discriminate.
  assert (H3 : Forall (fun x : CmdParam demo_fn demo_ptr =>
                         cmdname x <> first_token (sep initial) (lit "quit now"))
                 (firstn 6 commands))
    by (repeat constructor; discriminate).
  destruct (process_stops_at_empty_name LP64 (firstn 6 commands)
              [mkCmd 7 (lit "quit") (lit "Quit") fn_cmd_exit ptr_NULL]
              (mkCmd 0 (lit "") (lit "") fn_NULL ptr_NULL) (lit "quit now") initial
              eq_refl) as (_ & _ & Hnf & _).
  split; [reflexivity|]. split; [exact H1|]. split; [exact H2|].
  exact (Hnf H1 H2 H3).
Defined.

(** ** Tokens *)

(** C10.  When [gettoken] reports a token, the token is not empty and holds
    no separator; so the command word of [process] is never the empty
    string, and the comparison with a row whose name is empty fails. *)
Theorem gettoken_token_shape (dm : data_model) (st : parser) :
  representable st ->
  valid (gettoken dm st) = Some true ->
  exists tok,
    value (gettoken dm st) = Ok tok /\
    tok <> [] /\
    Forall (fun c => mem c (sep st) = false) tok /\
    forall (Fn Ptr : Type) (e : CmdParam Fn Ptr),
      cmdname e = [] -> text_eqb tok (cmdname e) = false.
Proof.
  intros Hrep. rewrite (gettoken_eq dm st Hrep). unfold gettoken_runs.
  set (rest := skipn (Z.to_nat (index st)) (current st)).
  destruct (after_run (is_sep (sep st)) rest) as [|c r] eqn:Eb; simpl; [discriminate|].
  intros _. exists (first_token (sep st) rest).
  pose proof (first_token_nonempty (sep st) rest c r Eb) as Hne.
  repeat split; auto using first_token_no_sep.
  intros Fn Ptr e He. apply not_true_is_false. rewrite text_eqb_eq. congruence.
Qed.

Lemma gettoken_token_shape_witness :
  representable (mkParser (lit "list 1.2") 4 default_sep) /\
  valid (gettoken LP64 (mkParser (lit "list 1.2") 4 default_sep)) = Some true /\
  exists tok,
    value (gettoken LP64 (mkParser (lit "list 1.2") 4 default_sep)) = Ok tok /\
    tok <> [] /\ Forall (fun c => mem c default_sep = false) tok.
Proof.
  assert (H1 : representable (mkParser (lit "list 1.2") 4 default_sep))
    by (unfold representable, UINT_MAX, size; simpl; lia).
  assert (H2 : valid (gettoken LP64 (mkParser (lit "list 1.2") 4 default_sep)) = Some true)
    by reflexivity.
  split; [exact H1|]. split; [exact H2|].
  destruct (gettoken_token_shape LP64 _ H1 H2) as (tok & Hv & Hne & Hall & _).
  exists tok. split; [exact Hv|]. split; [exact Hne|exact Hall].
Defined.

(** ** The cursor *)

Lemma gettoken_runs_cursor (st : parser) :
  representable st ->
  current (after (gettoken_runs st)) = current st /\
  sep (after (gettoken_runs st)) = sep st /\
  index st <= index (after (gettoken_runs st)) /\
  (cursor_ok st -> cursor_ok (after (gettoken_runs st))).
Proof.
  destruct st as [cur idx sp]. unfold representable, cursor_ok, gettoken_runs. simpl.
  intros [[Hlo Hhi] Hsz].
  set (rest := skipn (Z.to_nat idx) cur).
  pose proof (skipn_size cur (Z.to_nat idx)) as Hlen; fold rest in Hlen.
  pose proof (line_split sp rest) as Hsplit.
  destruct (after_run (is_sep sp) rest) as [|c r] eqn:Eb; simpl;
    [repeat split; auto; lia|].
  assert (Hr : size rest = size (run_of (is_sep sp) rest) + size (first_token sp rest)
                           + size (after_token sp rest))
    by (rewrite Hsplit at 1; rewrite !size_app; lia).
  pose proof (first_token_nonempty sp rest c r Eb) as Hne.
  assert (Htok : 1 <= size (first_token sp rest)).
  { destruct (first_token sp rest) as [|x y]; [congruence|].
    rewrite size_cons. pose proof (size_nonneg y). lia. }
  pose proof (size_nonneg (run_of (is_sep sp) rest)).
  pose proof (size_nonneg (after_token sp rest)).
  destruct (after_token sp rest); simpl; repeat split; auto; try lia.
Qed.

Lemma getnumber_after {A : Type} (zero : A) (convert : text -> res A)
    (dm : data_model) (st : parser) :
  after (getnumber zero convert dm st) = after (gettoken dm st).
Proof.
  unfold getnumber. destruct (value (gettoken dm st)); [|reflexivity].
  destruct (valid (gettoken dm st)) as [[|]|]; reflexivity.
Qed.

Lemma process_left {Fn Ptr : Type} (dm : data_model) (table : list (CmdParam Fn Ptr))
    (cmdline : text) (st : parser) :
  size cmdline < UINT_MAX ->
  left (process dm table cmdline st) = after (gettoken dm (mkParser cmdline 0 (sep st))).
Proof.
  intros Hsz.
  assert (Hrep : representable (mkParser cmdline 0 (sep st)))
    by (unfold representable, UINT_MAX in *; simpl; lia).
  destruct (gettoken_runs_cursor _ Hrep) as (Hcur & _).
  rewrite <- (gettoken_eq dm _ Hrep) in Hcur. simpl in Hcur.
  unfold process. change (set_index (set_current st cmdline) 0)
    with (mkParser cmdline 0 (sep st)).
  destruct (value (gettoken dm _)); [|reflexivity].
  destruct (valid (gettoken dm _)) as [[|]|]; try reflexivity.
  destruct (search table 0 a); try reflexivity.
  assert (Hst : set_current (after (gettoken dm (mkParser cmdline 0 (sep st)))) cmdline
                = after (gettoken dm (mkParser cmdline 0 (sep st)))).
  { revert Hcur. generalize (after (gettoken dm (mkParser cmdline 0 (sep st)))).
    intros [c i' s'] Hc. simpl in Hc. now subst c. }
  rewrite Hst. destruct (substr _ _ _); reflexivity.
Qed.

(** C3, as the code has it.  After [gettoken], [getint], [getuint],
    [getfloat] and [process] the cursor is at most the length of the line or
    equal to [UINT_MAX], which is [npos] stored in the [unsigned int]; the
    accessors keep the line and never move the cursor back, and [process]
    leaves the state of one [gettoken] from cursor zero on the new line.  A
    token that ends the line leaves the cursor at [UINT_MAX], not at the
    length of the line. *)
Theorem cursor_invariant {FL : FloatLib} {Fn Ptr : Type} (dm : data_model)
    (st : parser) (table : list (CmdParam Fn Ptr)) (cmdline : text) :
  representable st ->
  size cmdline < UINT_MAX ->
  let rest := skipn (Z.to_nat (index st)) (current st) in
  (current (after (gettoken dm st)) = current st /\
   index st <= index (after (gettoken dm st)) /\
   (cursor_ok st -> cursor_ok (after (gettoken dm st)))) /\
  (after (getint dm st) = after (gettoken dm st) /\
   after (getuint dm st) = after (gettoken dm st) /\
   after (getfloat dm st) = after (gettoken dm st)) /\
  (left (process dm table cmdline st) = after (gettoken dm (mkParser cmdline 0 (sep st))) /\
   current (left (process dm table cmdline st)) = cmdline /\
   cursor_ok (left (process dm table cmdline st))) /\
  (first_token (sep st) rest <> [] -> after_token (sep st) rest = [] ->
   index (after (gettoken dm st)) = UINT_MAX).
Proof.
  intros Hrep Hsz rest.
  assert (Hrep0 : representable (mkParser cmdline 0 (sep st)))
    by (unfold representable, UINT_MAX in *; simpl; lia).
  split; [|split; [|split]].
  - rewrite (gettoken_eq dm st Hrep).
    destruct (gettoken_runs_cursor st Hrep) as (H1 & _ & H2 & H3). auto.
  - unfold getint, getuint, getfloat. now rewrite !getnumber_after.
  - rewrite (process_left dm table cmdline st Hsz), (gettoken_eq dm _ Hrep0).
    destruct (gettoken_runs_cursor _ Hrep0) as (H1 & _ & _ & H3).
    split; [reflexivity|]. split; [exact H1|].
    apply H3. unfold cursor_ok; simpl. left. apply size_nonneg.
  - intros Htok Hrem. rewrite (gettoken_eq dm st Hrep). unfold gettoken_runs.
    fold rest. destruct (first_token_present _ _ Htok) as (c & r & ->).
    now rewrite Hrem.
Qed.

Lemma cursor_invariant_witness :
  representable (mkParser (lit "list 1.2") 4 default_sep) /\
  size (lit "help") < UINT_MAX /\
  index (after (gettoken LP64 (mkParser (lit "list 1.2") 4 default_sep))) = UINT_MAX /\
  cursor_ok (left (process LP64 commands (lit "help") initial)).
Proof.
  assert (H1 : representable (mkParser (lit "list 1.2") 4 default_sep))
    by (unfold representable, UINT_MAX, size; simpl; lia).
  assert (H2 : size (lit "help") < UINT_MAX) by reflexivity.
  destruct (@cursor_invariant symbolic_floats _ _ LP64 _ commands (lit "help") H1 H2)
    as (_ & _ & (_ & _ & Hp) & Hend).
  split; [exact H1|]. split; [exact H2|]. split; [|exact Hp].
  apply Hend; [discriminate|reflexivity].
Defined.

(** C3, as stated, fails: after [gettoken] on the line ["help"] the cursor
    is 4294967295, beyond the four characters of the line. *)
Lemma cursor_beyond_line :
  ~ (index (after (gettoken LP64 (mkParser (lit "help") 0 default_sep)))
     <= size (current (after (gettoken LP64 (mkParser (lit "help") 0 default_sep))))) /\
  index (after (gettoken LP64 (mkParser (lit "help") 0 default_sep))) <> size (lit "help").
Proof. split; vm_compute; [intros H; apply H; reflexivity | discriminate]. Qed.

(** ** Numeric conversion *)

Lemma digit_of_char (base d : Z) :
  0 <= d < base -> base <= 16 -> digit base (digit_char d) = Some d.
Proof.
  intros Hd Hb.
  assert (H : d = 0 \/ d = 1 \/ d = 2 \/ d = 3 \/ d = 4 \/ d = 5 \/ d = 6 \/ d = 7 \/
              d = 8 \/ d = 9 \/ d = 10 \/ d = 11 \/ d = 12 \/ d = 13 \/ d = 14 \/ d = 15)
    by lia.
  unfold digit.
  repeat (destruct H as [->|H]; [ cbn; replace (_ <? base) with true by (symmetry; apply Z.ltb_lt; lia); reflexivity | ]).
  subst d. cbn. replace (_ <? base) with true by (symmetry; apply Z.ltb_lt; lia). reflexivity.
Qed.

Lemma accumulate_render_aux (fuel : nat) (base : Z) :
  2 <= base <= 16 ->
  forall n acc, 0 <= n < 2 ^ Z.of_nat fuel ->
    accumulate base 0 (render_aux fuel base n acc) = accumulate base n acc.
Proof.
  intros Hb. induction fuel as [|f IH]; intros n acc Hn.
  - simpl in *. replace n with 0 by lia. reflexivity.
  - cbn [render_aux].
    assert (Hmod : 0 <= n mod base < base) by (apply Z.mod_pos_bound; lia).
    destruct (n <? base) eqn:E.
    + apply Z.ltb_lt in E. rewrite Z.mod_small by lia.
      cbn [accumulate]. rewrite digit_of_char by lia. reflexivity.
    + apply Z.ltb_ge in E.
      rewrite IH.
      * cbn [accumulate]. rewrite digit_of_char by lia.
        f_equal. rewrite (Z.div_mod n base) at 3 by lia. lia.
      * split; [apply Z.div_pos; lia|].
        rewrite Nat2Z.inj_succ, Z.pow_succ_r in Hn by lia.
        apply Z.div_lt_upper_bound; [lia|].
        assert (2 ^ Z.of_nat f > 0) by (apply Z.lt_gt, Z.pow_pos_nonneg; lia). nia.
Qed.

Lemma render_aux_head (fuel : nat) (base : Z) :
  2 <= base <= 16 ->
  forall n acc, 0 < n < 2 ^ Z.of_nat fuel ->
    exists d r, render_aux fuel base n acc = digit_char d :: r /\ 1 <= d < base.
Proof.
  intros Hb. induction fuel as [|f IH]; intros n acc Hn.
  - simpl in Hn. lia.
  - cbn [render_aux]. destruct (n <? base) eqn:E.
    + apply Z.ltb_lt in E. exists (n mod base), acc.
      rewrite Z.mod_small by lia. split; [reflexivity|lia].
    + apply Z.ltb_ge in E. apply IH.
      split; [apply Z.div_str_pos; lia|].
      rewrite Nat2Z.inj_succ, Z.pow_succ_r in Hn by lia.
      apply Z.div_lt_upper_bound; [lia|].
      assert (2 ^ Z.of_nat f > 0) by (apply Z.lt_gt, Z.pow_pos_nonneg; lia). nia.
Qed.

Lemma render_fuel (n : Z) : 0 <= n -> n < 2 ^ Z.of_nat (S (Z.to_nat (Z.log2 n))).
Proof.
  intros Hn. rewrite Nat2Z.inj_succ, Z2Nat.id by apply Z.log2_nonneg.
  destruct (Z.eq_dec n 0) as [->|Hz]; [reflexivity|].
  apply Z.log2_spec. lia.
Qed.

Lemma accumulate_render (base n : Z) :
  2 <= base <= 16 -> 0 <= n -> accumulate base 0 (render base n) = n.
Proof.
  intros Hb Hn. unfold render.
  rewrite accumulate_render_aux
    by first [assumption | split; [lia|now apply render_fuel]].
  reflexivity.
Qed.

Lemma render_head (base n : Z) :
  2 <= base <= 16 -> 0 <= n ->
  exists d r, render base n = digit_char d :: r /\ 0 <= d < base /\ (0 < n -> 1 <= d).
Proof.
  intros Hb Hn. destruct (Z.eq_dec n 0) as [->|Hz].
  - exists 0, []. unfold render. simpl.
    replace (0 <? base) with true by (symmetry; apply Z.ltb_lt; lia).
    rewrite Z.mod_0_l by lia. repeat split; lia.
  - destruct (render_aux_head (S (Z.to_nat (Z.log2 n))) base Hb n [])
      as (d & r & Hr & Hd); [split; [lia|now apply render_fuel]|].
    exists d, r. repeat split; auto; lia.
Qed.

Ltac digit_cases d :=
  let H := fresh "H" in
  assert (H : d = 0 \/ d = 1 \/ d = 2 \/ d = 3 \/ d = 4 \/ d = 5 \/ d = 6 \/ d = 7 \/
              d = 8 \/ d = 9 \/ d = 10 \/ d = 11 \/ d = 12 \/ d = 13 \/ d = 14 \/ d = 15)
    by lia;
  repeat (destruct H as [H|H]); subst d.

Lemma magnitude_digit_head (d : Z) (r : text) :
  0 <= d < 16 ->
  magnitude (digit_char d :: r) = option_map (pair false) (unsigned_value (digit_char d :: r)).
Proof. intros Hd. digit_cases d; reflexivity. Qed.

Lemma magnitude_minus (s : text) :
  magnitude ("-"%char :: s) = option_map (pair true) (unsigned_value s).
Proof. reflexivity. Qed.

Lemma unsigned_value_decimal (n : Z) :
  0 <= n -> unsigned_value (render 10 n) = Some n.
Proof.
  intros Hn.
  destruct (render_head 10 n) as (d & r & Hr & Hd & Hpos); [lia|assumption|].
  destruct (Z.eq_dec n 0) as [->|Hz]; [reflexivity|].
  assert (H1 : 1 <= d) by (apply Hpos; lia).
  assert (Hdb : detect_base (render 10 n) = (10, render 10 n))
    by (rewrite Hr; digit_cases d; try lia; reflexivity).
  assert (Hst : starts_with (is_digit 10) (render 10 n) = true)
    by (rewrite Hr; digit_cases d; try lia; reflexivity).
  unfold unsigned_value. rewrite Hdb, Hst, accumulate_render by lia. reflexivity.
Qed.

Lemma unsigned_value_hex (n : Z) :
  0 <= n -> unsigned_value ("0"%char :: "x"%char :: render 16 n) = Some n.
Proof.
  intros Hn.
  destruct (render_head 16 n) as (d & r & Hr & Hd & _); [lia|assumption|].
  assert (Hdig : is_digit 16 (digit_char d) = true)
    by (unfold is_digit; now rewrite digit_of_char by lia).
  unfold unsigned_value.
  assert (Hdb : detect_base ("0"%char :: "x"%char :: render 16 n) = (16, render 16 n))
    by (rewrite Hr; cbn [detect_base]; rewrite Hdig; reflexivity).
  rewrite Hdb. rewrite Hr at 1. cbn [starts_with]. rewrite Hdig.
  now rewrite accumulate_render by lia.
Qed.

Lemma unsigned_value_octal (n : Z) :
  0 <= n -> unsigned_value ("0"%char :: render 8 n) = Some n.
Proof.
  intros Hn.
  destruct (render_head 8 n) as (d & r & Hr & Hd & _); [lia|assumption|].
  assert (Hdb : detect_base ("0"%char :: render 8 n) = (8, "0"%char :: render 8 n)).
  { rewrite Hr. destruct r as [|h r']; [reflexivity|].
    digit_cases d; try lia; reflexivity. }
  unfold unsigned_value. rewrite Hdb.
  change (starts_with (is_digit 8) ("0"%char :: render 8 n)) with true. cbv iota.
  change (accumulate 8 0 ("0"%char :: render 8 n)) with (accumulate 8 0 (render 8 n)).
  now rewrite accumulate_render by lia.
Qed.

Lemma magnitude_to_string (v : Z) : magnitude (to_string v) = Some (v <? 0, Z.abs v).
Proof.
  unfold to_string, signed. simpl app. destruct (v <? 0) eqn:E.
  - apply Z.ltb_lt in E. rewrite magnitude_minus, unsigned_value_decimal by lia.
    simpl. do 2 f_equal. lia.
  - apply Z.ltb_ge in E.
    destruct (render_head 10 v) as (d & r & Hr & Hd & _); [lia|assumption|].
    rewrite Hr, magnitude_digit_head, <- Hr, unsigned_value_decimal by lia.
    simpl. do 2 f_equal. lia.
Qed.

Lemma magnitude_to_hex (v : Z) : magnitude (to_hex v) = Some (v <? 0, Z.abs v).
Proof.
  unfold to_hex, signed. change (lit "0x" ++ ?r) with ("0"%char :: "x"%char :: r).
  destruct (v <? 0) eqn:E.
  - apply Z.ltb_lt in E. rewrite magnitude_minus, unsigned_value_hex by lia.
    simpl. do 2 f_equal. lia.
  - apply Z.ltb_ge in E.
    rewrite (magnitude_digit_head 0), unsigned_value_hex by lia.
    simpl. do 2 f_equal. lia.
Qed.

Lemma magnitude_to_octal (v : Z) : magnitude (to_octal v) = Some (v <? 0, Z.abs v).
Proof.
  unfold to_octal, signed. change (lit "0" ++ ?r) with ("0"%char :: r).
  destruct (v <? 0) eqn:E.
  - apply Z.ltb_lt in E. rewrite magnitude_minus, unsigned_value_octal by lia.
    simpl. do 2 f_equal. lia.
  - apply Z.ltb_ge in E.
    rewrite (magnitude_digit_head 0), unsigned_value_octal by lia.
    simpl. do 2 f_equal. lia.
Qed.

Lemma stoi_of_magnitude (dm : data_model) (s : text) (v : Z) :
  INT_MIN <= v <= INT_MAX ->
  magnitude s = Some (v <? 0, Z.abs v) -> stoi dm s = Ok v.
Proof.
  unfold INT_MIN, INT_MAX. intros Hv Hm. unfold stoi, strtol. rewrite Hm.
  assert (Hval : (if v <? 0 then - Z.abs v else Z.abs v) = v)
    by (destruct (v <? 0) eqn:E; [apply Z.ltb_lt in E|apply Z.ltb_ge in E]; lia).
  rewrite Hval.
  replace ((- 2 ^ (long_bits dm - 1) <=? v) && (v <=? 2 ^ (long_bits dm - 1) - 1))
    with true
    by (symmetry; apply andb_true_iff; split; apply Z.leb_le; destruct dm; simpl; lia).
  unfold INT_MIN, INT_MAX.
  replace ((v <? - 2 ^ 31) || (2 ^ 31 - 1 <? v)) with false; [reflexivity|].
  symmetry; apply orb_false_iff; split; apply Z.ltb_ge; lia.
Qed.

Lemma stoul_of_magnitude (dm : data_model) (s : text) (v : Z) :
  0 <= v <= UINT_MAX ->
  magnitude s = Some (v <? 0, Z.abs v) -> stoul dm s = Ok v.
Proof.
  unfold UINT_MAX. intros Hv Hm. unfold stoul, strtoul. rewrite Hm.
  replace (v <? 0) with false by (symmetry; apply Z.ltb_ge; lia).
  rewrite Z.abs_eq by lia.
  replace (v <=? 2 ^ long_bits dm - 1) with true
    by (symmetry; apply Z.leb_le; destruct dm; simpl; lia).
  rewrite Z.mod_small by (destruct dm; simpl; lia). reflexivity.
Qed.

(** [gettoken] returns the token at the cursor. *)
Lemma gettoken_next (dm : data_model) (st : parser) :
  representable st -> next_token st <> [] ->
  value (gettoken dm st) = Ok (next_token st) /\ valid (gettoken dm st) = Some true.
Proof.
  intros Hrep Hne. rewrite (gettoken_eq dm st Hrep). unfold gettoken_runs.
  unfold next_token in *.
  destruct (first_token_present _ _ Hne) as (c & r & ->). split; reflexivity.
Qed.

Lemma getnumber_next {A : Type} (zero : A) (convert : text -> res A)
    (dm : data_model) (st : parser) :
  representable st -> next_token st <> [] ->
  value (getnumber zero convert dm st) = convert (next_token st) /\
  valid (getnumber zero convert dm st) = Some true.
Proof.
  intros Hrep Hne. destruct (gettoken_next dm st Hrep Hne) as [Hv Hb].
  unfold getnumber. rewrite Hv, Hb. split; reflexivity.
Qed.

Lemma magnitude_nonempty (s : text) p : magnitude s = Some p -> s <> [].
Proof. intros H ->. discriminate. Qed.

(** C9.  When the token at the cursor is the decimal rendering of [v],
    [getint] returns [v] for every [int] and [getuint] for every
    [unsigned int], each storing [true] through [valid]; [getint] also
    returns [v] from its rendering with the [0x] prefix in base 16 and with
    a leading [0] in base 8. *)
Theorem getint_round_trip (dm : data_model) (st : parser) (v : Z) :
  representable st ->
  (next_token st = to_string v -> INT_MIN <= v <= INT_MAX ->
   value (getint dm st) = Ok v /\ valid (getint dm st) = Some true) /\
  (next_token st = to_string v -> 0 <= v <= UINT_MAX ->
   value (getuint dm st) = Ok v /\ valid (getuint dm st) = Some true) /\
  (next_token st = to_hex v \/ next_token st = to_octal v -> INT_MIN <= v <= INT_MAX ->
   value (getint dm st) = Ok v /\ valid (getint dm st) = Some true).
Proof.
  intros Hrep. split; [|split].
  - intros Htok Hv.
    pose proof (magnitude_to_string v) as Hm. rewrite <- Htok in Hm.
    destruct (getnumber_next 0 (stoi dm) dm st Hrep (magnitude_nonempty _ _ Hm)) as [H1 H2].
    unfold getint. rewrite H1, H2. split; [|reflexivity].
    now apply stoi_of_magnitude.
  - intros Htok Hv.
    pose proof (magnitude_to_string v) as Hm. rewrite <- Htok in Hm.
    unfold getuint.
    match goal with |- context [getnumber 0 ?c dm st] =>
      destruct (getnumber_next 0 c dm st Hrep (magnitude_nonempty _ _ Hm)) as [H1 H2]
    end.
    rewrite H1, H2. split; [|reflexivity].
    rewrite (stoul_of_magnitude dm _ v Hv Hm). f_equal. now apply to_uint_small.
  - intros Htok Hv.
    assert (Hm : magnitude (next_token st) = Some (v <? 0, Z.abs v))
      by (destruct Htok as [-> | ->]; [apply magnitude_to_hex|apply magnitude_to_octal]).
    destruct (getnumber_next 0 (stoi dm) dm st Hrep (magnitude_nonempty _ _ Hm)) as [H1 H2].
    unfold getint. rewrite H1, H2. split; [|reflexivity].
    now apply stoi_of_magnitude.
Qed.

Lemma getint_round_trip_witness :
  representable (mkParser (lit "B -12 next") 1 default_sep) /\
  next_token (mkParser (lit "B -12 next") 1 default_sep) = to_string (-12) /\
  INT_MIN <= -12 <= INT_MAX /\
  value (getint LP64 (mkParser (lit "B -12 next") 1 default_sep)) = Ok (-12).
Proof.
  assert (H1 : representable (mkParser (lit "B -12 next") 1 default_sep))
    by (unfold representable, UINT_MAX, size; simpl; lia).
  assert (H2 : next_token (mkParser (lit "B -12 next") 1 default_sep) = to_string (-12))
    by reflexivity.
  assert (H3 : INT_MIN <= -12 <= INT_MAX) by (unfold INT_MIN, INT_MAX; lia).
  split; [exact H1|]. split; [exact H2|]. split; [exact H3|].
  exact (proj1 (proj1 (getint_round_trip LP64 _ (-12) H1) H2 H3)).
Defined.

(** C4, as the code has it.  When a token is present and no conversion can
    be performed on it, each of [getfloat], [getint] and [getuint] stores
    [true] through [valid] and then leaves with [std::invalid_argument]
    instead of returning a number. *)
Theorem getnumber_no_conversion {FL : FloatLib} (dm : data_model) (st : parser) :
  representable st ->
  next_token st <> [] ->
  (float_subject (next_token st) = false ->
   value (getfloat dm st) = Throw invalid_argument /\
   valid (getfloat dm st) = Some true) /\
  (magnitude (next_token st) = None ->
   value (getint dm st) = Throw invalid_argument /\
   valid (getint dm st) = Some true /\
   value (getuint dm st) = Throw invalid_argument /\
   valid (getuint dm st) = Some true).
Proof.
  intros Hrep Hne. split.
  - intros Hf. unfold getfloat.
    destruct (getnumber_next float_zero stof dm st Hrep Hne) as [H1 H2].
    rewrite H1, H2. unfold stof, strtof. rewrite Hf. split; reflexivity.
  - intros Hm. unfold getint, getuint.
    destruct (getnumber_next 0 (stoi dm) dm st Hrep Hne) as [H1 H2].
    destruct (getnumber_next 0
                (fun token => match stoul dm token with
                              | Ok v => Ok (to_uint v)
                              | Throw e => Throw e
                              end) dm st Hrep Hne) as [H3 H4].
    rewrite H1, H2, H3, H4. unfold stoi, stoul, strtol, strtoul. rewrite Hm.
    repeat split; reflexivity.
Qed.

Lemma getnumber_no_conversion_witness :
  representable (mkParser (lit "A abc") 1 default_sep) /\
  next_token (mkParser (lit "A abc") 1 default_sep) <> [] /\
  float_subject (next_token (mkParser (lit "A abc") 1 default_sep)) = false /\
  magnitude (next_token (mkParser (lit "A abc") 1 default_sep)) = None /\
  value (@getfloat symbolic_floats LP64 (mkParser (lit "A abc") 1 default_sep)) =
    Throw invalid_argument /\
  value (getuint LP64 (mkParser (lit "A abc") 1 default_sep)) = Throw invalid_argument.
Proof.
  assert (H1 : representable (mkParser (lit "A abc") 1 default_sep))
    by (unfold representable, UINT_MAX, size; simpl; lia).
  assert (H2 : next_token (mkParser (lit "A abc") 1 default_sep) <> []) by discriminate.
  assert (H3 : float_subject (next_token (mkParser (lit "A abc") 1 default_sep)) = false)
    by reflexivity.
  assert (H4 : magnitude (next_token (mkParser (lit "A abc") 1 default_sep)) = None)
    by reflexivity.
  destruct (@getnumber_no_conversion symbolic_floats LP64 _ H1 H2) as [Hf Hi].
  split; [exact H1|]. split; [exact H2|]. split; [exact H3|]. split; [exact H4|].
  split; [exact (proj1 (Hf H3))|].
  exact (proj1 (proj2 (proj2 (Hi H4)))).
Defined.

(** C4, as stated, fails: with the token ["abc"] at the cursor [getint]
    does not return a number, [std::stoi] throws. *)
Lemma getint_does_not_return :
  next_token (mkParser (lit "A abc") 1 default_sep) = lit "abc" /\
  value (getint LP64 (mkParser (lit "A abc") 1 default_sep)) = Throw invalid_argument /\
  ~ (exists v, value (getint LP64 (mkParser (lit "A abc") 1 default_sep)) = Ok v).
Proof.
  split; [reflexivity|]. split; [reflexivity|]. intros [v H]. discriminate H.
Qed.

(** ** Sample renderings and conversions *)

Example to_string_samples :
  to_string 0 = lit "0" /\ to_string 2147483647 = lit "2147483647" /\
  to_string (-2147483648) = lit "-2147483648" /\
  to_hex 255 = lit "0xff" /\ to_octal 8 = lit "010".
Proof. repeat split; reflexivity. Qed.

Example getint_prefix_samples :
  value (getint LP64 (mkParser (lit "0x1F 017") 0 default_sep)) = Ok 31 /\
  value (getint LP64 (mkParser (lit "0x1F 017") 4 default_sep)) = Ok 15 /\
  value (getint LP64 (mkParser (lit "12abc") 0 default_sep)) = Ok 12 /\
  value (getint LP64 (mkParser (lit "99999999999") 0 default_sep)) = Throw out_of_range.
Proof. repeat split; reflexivity. Qed.

(** The line ["list 1.2"] read with two [getfloat]: the first finds ["1.2"],
    the second finds no token and returns zero with [valid] false. *)
Example list_two_floats :
  let s1 := left (process LP64 commands (lit "list 1.2") initial) in
  let r1 := @getfloat symbolic_floats LP64 s1 in
  let r2 := @getfloat symbolic_floats LP64 (after r1) in
  (value r1, valid r1) = (Ok (lit "1.2"), Some true) /\
  (value r2, valid r2) = (Ok (lit "0.0"), Some false).
Proof. split; reflexivity. Qed.

(** ** Reading a line token by token *)

Lemma after_run_nil_all (p : ascii -> bool) (s : text) :
  after_run p s = [] <-> Forall (fun c => p c = true) s.
Proof.
  split.
  - intros H. rewrite <- (run_split p s), H, app_nil_r. apply run_of_all.
  - intros H. rewrite <- (app_nil_r s). now rewrite after_run_app_all.
Qed.

Lemma skipn_add_app (a b : text) (n : Z) :
  n = size a -> skipn (Z.to_nat n) (a ++ b) = b.
Proof.
  intros ->. unfold size. rewrite Nat2Z.id, skipn_app, skipn_all, Nat.sub_diag.
  reflexivity.
Qed.

(** One successful call: the token is the first token of the unread part,
    and what is left unread is what follows that token. *)
Lemma gettoken_step (dm : data_model) (st : parser) c r :
  representable st ->
  after_run (is_sep (sep st)) (unread st) = c :: r ->
  value (gettoken dm st) = Ok (next_token st) /\
  valid (gettoken dm st) = Some true /\
  representable (after (gettoken dm st)) /\
  sep (after (gettoken dm st)) = sep st /\
  current (after (gettoken dm st)) = current st /\
  unread (after (gettoken dm st)) = after_token (sep st) (unread st).
Proof.
  intros Hrep Eb. rewrite (gettoken_eq dm st Hrep).
  destruct st as [cur idx sp]. unfold representable, unread, next_token in *.
  unfold gettoken_runs. cbn [current index sep] in *.
  destruct Hrep as [[Hlo Hhi] Hsz].
  set (rest := skipn (Z.to_nat idx) cur) in *.
  rewrite Eb. cbn [value valid after set_index current index sep].
  pose proof (skipn_size cur (Z.to_nat idx)) as Hlen; fold rest in Hlen.
  pose proof (line_split sp rest) as Hsplit.
  assert (Hr : size rest = size (run_of (is_sep sp) rest) + size (first_token sp rest)
                           + size (after_token sp rest))
    by (rewrite Hsplit at 1; rewrite !size_app; lia).
  pose proof (first_token_nonempty sp rest c r Eb) as Hne.
  assert (Htok : 1 <= size (first_token sp rest)).
  { destruct (first_token sp rest) as [|x y]; [congruence|].
    rewrite size_cons. pose proof (size_nonneg y). lia. }
  pose proof (size_nonneg (run_of (is_sep sp) rest)) as Hb.
  pose proof (size_nonneg (after_token sp rest)) as Ha.
  split; [reflexivity|]. split; [reflexivity|].
  destruct (after_token sp rest) as [|a tl] eqn:Et.
  - repeat split; try lia; try reflexivity.
    apply skipn_all2. unfold size, UINT_MAX in *. lia.
  - repeat split; try lia; try reflexivity.
    replace (Z.to_nat (idx + size (run_of (is_sep sp) rest) + size (first_token sp rest)))
      with (List.length (run_of (is_sep sp) rest ++ first_token sp rest) + Z.to_nat idx)%nat
      by (rewrite length_app; unfold size; lia).
    rewrite <- skipn_skipn. fold rest.
    set (pre := run_of (is_sep sp) rest ++ first_token sp rest).
    assert (Hpre : rest = pre ++ a :: tl)
      by (unfold pre; rewrite <- app_assoc; exact Hsplit).
    rewrite Hpre at 1. rewrite skipn_app, skipn_all, Nat.sub_diag. reflexivity.
Qed.

(** X1.  [gettoken] reports no token exactly when nothing but separators is
    left after the cursor (nothing at all included); it then returns the
    empty string and leaves the cursor where it was. *)
Theorem gettoken_none_iff (dm : data_model) (st : parser) :
  representable st ->
  (valid (gettoken dm st) = Some false <->
   Forall (fun c => mem c (sep st) = true) (unread st)) /\
  (valid (gettoken dm st) = Some false ->
   gettoken dm st = mkRet (Ok []) (Some false) st).
Proof.
  intros Hrep.
  destruct (after_run (is_sep (sep st)) (unread st)) as [|c r] eqn:Eb.
  - assert (Hg : gettoken dm st = mkRet (Ok []) (Some false) st)
      by (apply gettoken_blank; [apply Hrep|exact Eb]).
    rewrite Hg. split; [|reflexivity].
    split; [|reflexivity]. intros _. now apply (after_run_nil_all (is_sep (sep st))).
  - destruct (gettoken_step dm st c r Hrep Eb) as (_ & Hv & _).
    rewrite Hv. split; [|discriminate]. split; [discriminate|].
    intros H. apply (after_run_nil_all (is_sep (sep st))) in H. congruence.
Qed.

Lemma gettoken_none_iff_witness :
  representable (mkParser (lit "list 1.2  ") 8 default_sep) /\
  gettoken LP64 (mkParser (lit "list 1.2  ") 8 default_sep) =
    mkRet (Ok []) (Some false) (mkParser (lit "list 1.2  ") 8 default_sep).
Proof.
  assert (H : representable (mkParser (lit "list 1.2  ") 8 default_sep))
    by (unfold representable, UINT_MAX, size; simpl; lia).
  split; [exact H|].
  destruct (gettoken_none_iff LP64 _ H) as [[_ Hall] Hkeep].
  apply Hkeep, Hall. repeat constructor.
Defined.

Lemma filter_non_sep_blank (sp s : text) :
  Forall (fun c => is_sep sp c = true) s -> filter (non_sep sp) s = [].
Proof.
  induction 1 as [|c l Hc _ IH]; simpl; [reflexivity|].
  unfold non_sep, is_sep in *. now rewrite Hc.
Qed.

Lemma filter_non_sep_split (sp s : text) :
  filter (non_sep sp) s = first_token sp s ++ filter (non_sep sp) (after_token sp s).
Proof.
  rewrite (line_split sp s) at 1. rewrite !filter_app.
  assert (H1 : filter (non_sep sp) (run_of (is_sep sp) s) = [])
    by apply filter_non_sep_blank, run_of_all.
  assert (H2 : filter (non_sep sp) (first_token sp s) = first_token sp s).
  { unfold first_token.
    pose proof (run_of_all (non_sep sp) (after_run (is_sep sp) s)) as H.
    induction H as [|c l Hc _ IH]; simpl; [reflexivity|]. now rewrite Hc, IH. }
  now rewrite H1, H2.
Qed.

Lemma gettokens_spec (dm : data_model) (fuel : nat) :
  forall st, representable st -> (List.length (unread st) < fuel)%nat ->
    List.concat (fst (gettokens fuel dm st)) = filter (non_sep (sep st)) (unread st) /\
    Forall (fun tok => tok <> [] /\ Forall (fun c => mem c (sep st) = false) tok)
      (fst (gettokens fuel dm st)) /\
    valid (gettoken dm (snd (gettokens fuel dm st))) = Some false /\
    current (snd (gettokens fuel dm st)) = current st.
Proof.
  induction fuel as [|f IH]; intros st Hrep Hlen; [lia|].
  cbn [gettokens].
  destruct (after_run (is_sep (sep st)) (unread st)) as [|c r] eqn:Eb.
  - assert (Hg : gettoken dm st = mkRet (Ok []) (Some false) st)
      by (apply gettoken_blank; [apply Hrep|exact Eb]).
    rewrite Hg. cbn [value valid after fst snd List.concat]. rewrite Hg.
    repeat split; auto.
    apply (after_run_nil_all (is_sep (sep st))) in Eb.
    symmetry. now apply filter_non_sep_blank.
  - destruct (gettoken_step dm st c r Hrep Eb) as (Hv & Hb & Hrep' & Hsep & Hcur & Hun).
    rewrite Hv, Hb.
    pose proof (first_token_nonempty (sep st) (unread st) c r Eb) as Hne.
    assert (Hlen' : (List.length (unread (after (gettoken dm st))) < f)%nat).
    { rewrite Hun. pose proof (line_split (sep st) (unread st)) as Hs.
      apply (f_equal (@List.length ascii)) in Hs. rewrite !length_app in Hs.
      destruct (first_token (sep st) (unread st)); [congruence|]. simpl in Hs. lia. }
    destruct (IH _ Hrep' Hlen') as (Hc & Hall & Hend & Hcur').
    destruct (gettokens f dm (after (gettoken dm st))) as [ts st'].
    cbn [fst snd List.concat] in *. rewrite Hsep, Hun in *.
    repeat split; auto.
    + rewrite Hc. symmetry. apply filter_non_sep_split.
    + constructor; [|exact Hall]. split; [exact Hne|apply first_token_no_sep].
    + congruence.
Qed.

(** X2.  Calling [gettoken] until it reports no token takes at most one call
    more than there are unread characters, and returns, in order, token by
    token, the unread characters that are not separators: none is lost,
    none appears twice, no token is empty or holds a separator. *)
Theorem gettokens_read_the_line (dm : data_model) (st : parser) :
  representable st ->
  let run := gettokens (S (List.length (unread st))) dm st in
  List.concat (fst run) = filter (non_sep (sep st)) (unread st) /\
  Forall (fun tok => tok <> [] /\ Forall (fun c => mem c (sep st) = false) tok) (fst run) /\
  valid (gettoken dm (snd run)) = Some false /\
  current (snd run) = current st.
Proof.
  intros Hrep. apply gettokens_spec; [assumption|lia].
Qed.

Lemma gettokens_read_the_line_witness :
  representable (mkParser (lit "list 1.2 77.5") 0 default_sep) /\
  fst (gettokens 14 LP64 (mkParser (lit "list 1.2 77.5") 0 default_sep)) =
    [lit "list"; lit "1.2"; lit "77.5"] /\
  List.concat (fst (gettokens 14 LP64 (mkParser (lit "list 1.2 77.5") 0 default_sep))) =
    lit "list1.277.5".
Proof.
  assert (H : representable (mkParser (lit "list 1.2 77.5") 0 default_sep))
    by (unfold representable, UINT_MAX, size; simpl; lia).
  split; [exact H|]. split; [reflexivity|].
  exact (proj1 (gettokens_read_the_line LP64 _ H)).
Defined.

(** X3.  With nothing but separators left after the cursor, [getint],
    [getuint] and [getfloat] return zero, store [false] through [valid],
    convert nothing and leave the cursor where it was. *)
Theorem getnumber_no_token {FL : FloatLib} (dm : data_model) (st : parser) :
  representable st ->
  Forall (fun c => mem c (sep st) = true) (unread st) ->
  getint dm st = mkRet (Ok 0) (Some false) st /\
  getuint dm st = mkRet (Ok 0) (Some false) st /\
  getfloat dm st = mkRet (Ok float_zero) (Some false) st.
Proof.
  intros Hrep Hall.
  assert (Hg : gettoken dm st = mkRet (Ok []) (Some false) st).
  { apply gettoken_blank; [apply Hrep|].
    now apply (after_run_nil_all (is_sep (sep st))). }
  unfold getint, getuint, getfloat, getnumber. rewrite Hg. repeat split.
Qed.

Lemma getnumber_no_token_witness :
  representable (mkParser (lit "list 1.2") UINT_MAX default_sep) /\
  getint LP64 (mkParser (lit "list 1.2") UINT_MAX default_sep) =
    mkRet (Ok 0) (Some false) (mkParser (lit "list 1.2") UINT_MAX default_sep) /\
  @getfloat symbolic_floats LP64 (mkParser (lit "list 1.2") UINT_MAX default_sep) =
    mkRet (Ok (lit "0.0")) (Some false) (mkParser (lit "list 1.2") UINT_MAX default_sep).
Proof.
  assert (H : representable (mkParser (lit "list 1.2") UINT_MAX default_sep))
    by (unfold representable, UINT_MAX, size; simpl; lia).
  assert (Hall : Forall (fun c => mem c default_sep = true)
                   (unread (mkParser (lit "list 1.2") UINT_MAX default_sep))).
  { unfold unread. cbn [current index]. rewrite skipn_all2; [constructor|].
    unfold UINT_MAX; simpl; lia. }
  destruct (@getnumber_no_token symbolic_floats LP64 _ H Hall) as (Hi & _ & Hf).
  split; [exact H|]. split; [exact Hi|exact Hf].
Defined.

(** ** What the handler finds in the shared state *)

(** X4.  When [process] invokes a handler, the unread part of the line in
    the state it leaves is the remainder it hands over: the accessors the
    handler calls read the tokens of that remainder. *)
Theorem process_state_matches_remainder {Fn Ptr : Type} (dm : data_model)
    (table : list (CmdParam Fn Ptr)) (cmdline : text) (st : parser) f n a p :
  size cmdline < UINT_MAX ->
  In (handler f n a p) (calls (process dm table cmdline st)) ->
  unread (left (process dm table cmdline st)) = p /\
  next_token (left (process dm table cmdline st)) = first_token (sep st) p /\
  representable (left (process dm table cmdline st)).
Proof.
  intros Hsz. rewrite process_eq by assumption. unfold process_runs.
  destruct (after_run (is_sep (sep st)) cmdline) as [|b body] eqn:Eb;
    [simpl; intros [H|[H|[]]]; discriminate|].
  destruct (search table 0 (first_token (sep st) cmdline)) as [i e| |];
    [|simpl; intros [H|[]]; discriminate|intros []].
  destruct (after_token (sep st) cmdline) as [|c r] eqn:Er; [intros []|].
  cbn [calls left]. intros [H|[]]. injection H as _ _ _ <-.
  pose proof (line_split (sep st) cmdline) as Hs. rewrite Er in Hs.
  set (blanks := run_of (is_sep (sep st)) cmdline) in *.
  set (tok := first_token (sep st) cmdline) in *.
  assert (Hun : unread (mkParser cmdline (size blanks + size tok) (sep st)) = c :: r).
  { unfold unread. cbn [current index].
    rewrite Hs at 1. rewrite app_assoc. apply skipn_add_app. now rewrite size_app. }
  split; [exact Hun|]. split.
  - unfold next_token. cbn [sep]. unfold unread in Hun. now rewrite Hun.
  - unfold representable. cbn [current index].
    assert (Hlen : size cmdline = size blanks + size tok + size (c :: r))
      by (rewrite Hs at 1; rewrite !size_app; lia).
    pose proof (size_nonneg blanks). pose proof (size_nonneg tok).
    pose proof (size_nonneg (c :: r)). lia.
Qed.

Lemma process_state_matches_remainder_witness :
  size (lit "list 1.2 77.5") < UINT_MAX /\
  In (handler fn_list 1 ptr_NULL (lit " 1.2 77.5"))
     (calls (process LP64 commands (lit "list 1.2 77.5") initial)) /\
  unread (left (process LP64 commands (lit "list 1.2 77.5") initial)) = lit " 1.2 77.5".
Proof.
  assert (H1 : size (lit "list 1.2 77.5") < UINT_MAX) by reflexivity.
  assert (H2 : In (handler fn_list 1 ptr_NULL (lit " 1.2 77.5"))
                 (calls (process LP64 commands (lit "list 1.2 77.5") initial)))
    by (left; reflexivity).
  split; [exact H1|]. split; [exact H2|].
  exact (proj1 (process_state_matches_remainder LP64 commands _ initial _ _ _ _ H1 H2)).
Defined.

(** ** Rows after the match, and arrays without an end row *)

Lemma search_after_match {Fn Ptr : Type} (before later later' : list (CmdParam Fn Ptr))
    (e : CmdParam Fn Ptr) i tok :
  cmdname e = tok -> tok <> [] ->
  search (before ++ e :: later) i tok = search (before ++ e :: later') i tok.
Proof.
  intros He Hne. revert i. induction before as [|x before IH]; intros i; simpl.
  - replace (size (cmdname e) =? 0) with false
      by (symmetry; apply not_true_is_false; rewrite size_zero; congruence).
    replace (text_eqb tok (cmdname e)) with true by (symmetry; now apply text_eqb_eq).
    reflexivity.
  - destruct (size (cmdname x) =? 0); [reflexivity|].
    destruct (text_eqb tok (cmdname x)); [reflexivity|apply IH].
Qed.

(** X5.  The rows after a row named by the command word are never read: the
    run is the same whatever follows that row, a second row of the same name
    and an array without an end row included. *)
Theorem process_ignores_rows_after_match {Fn Ptr : Type} (dm : data_model)
    (before later later' : list (CmdParam Fn Ptr)) (e : CmdParam Fn Ptr)
    (cmdline : text) (st : parser) :
  size cmdline < UINT_MAX ->
  first_token (sep st) cmdline <> [] ->
  cmdname e = first_token (sep st) cmdline ->
  process dm (before ++ e :: later) cmdline st =
  process dm (before ++ e :: later') cmdline st.
Proof.
  intros Hsz Hne He. rewrite !process_eq by assumption. unfold process_runs.
  now rewrite (search_after_match before later later' e 0 _ He Hne).
Qed.

Lemma process_ignores_rows_after_match_witness :
  size (lit "A 3.5") < UINT_MAX /\
  first_token (sep initial) (lit "A 3.5") <> [] /\
  process LP64 (firstn 3 commands ++ mkCmd 4 (lit "A") (lit "View/set valueA") fn_cmd_val
                  ptr_valueA :: skipn 4 commands) (lit "A 3.5") initial =
  process LP64 (firstn 3 commands ++ mkCmd 4 (lit "A") (lit "View/set valueA") fn_cmd_val
                  ptr_valueA :: [mkCmd 9 (lit "A") (lit "") fn_list ptr_NULL])
    (lit "A 3.5") initial.
Proof.
  assert (H1 : size (lit "A 3.5") < UINT_MAX) by reflexivity.
  assert (H2 : first_token (sep initial) (lit "A 3.5") <> []) by discriminate.
  split; [exact H1|]. split; [exact H2|].
  exact (process_ignores_rows_after_match LP64 (firstn 3 commands) (skipn 4 commands)
           [mkCmd 9 (lit "A") (lit "") fn_list ptr_NULL]
           (mkCmd 4 (lit "A") (lit "View/set valueA") fn_cmd_val ptr_valueA)
           (lit "A 3.5") initial H1 H2 eq_refl).
Defined.

Lemma search_overrun {Fn Ptr : Type} (t : list (CmdParam Fn Ptr)) i tok :
  Forall (fun x => cmdname x <> [] /\ cmdname x <> tok) t ->
  search t i tok = Overrun.
Proof.
  intros H. revert i. induction H as [|x t [Hx1 Hx2] _ IH]; intros i; simpl.
  - reflexivity.
  - replace (size (cmdname x) =? 0) with false
      by (symmetry; apply not_true_is_false; now rewrite size_zero).
    replace (text_eqb tok (cmdname x)) with false
      by (symmetry; apply not_true_is_false; rewrite text_eqb_eq; congruence).
    apply IH.
Qed.

(** X6.  An array in which no row has an empty name does not stop the loop:
    for a command word that names none of its rows the loop reads past the
    last row, and neither [notfoundfunc] nor a handler has been called by
    then. *)
Theorem process_needs_end_row {Fn Ptr : Type} (dm : data_model)
    (table : list (CmdParam Fn Ptr)) (cmdline : text) (st : parser) :
  size cmdline < UINT_MAX ->
  first_token (sep st) cmdline <> [] ->
  Forall (fun x => cmdname x <> [] /\ cmdname x <> first_token (sep st) cmdline) table ->
  calls (process dm table cmdline st) = [] /\
  how (process dm table cmdline st) = ReadsPastTable.
Proof.
  intros Hsz Hne Hall. rewrite process_eq by assumption. unfold process_runs.
  destruct (first_token_present _ _ Hne) as (c & r & ->).
  rewrite (search_overrun table 0 _ Hall). split; reflexivity.
Qed.

Lemma process_needs_end_row_witness :
  size (lit "quit now") < UINT_MAX /\
  first_token (sep initial) (lit "quit now") <> [] /\
  how (process LP64 (firstn 6 commands) (lit "quit now") initial) = ReadsPastTable.
Proof.
  assert (H1 : size (lit "quit now") < UINT_MAX) by reflexivity.
  assert (H2 : first_token (sep initial) (lit "quit now") <> []) by discriminate.
  assert (H3 : Forall (fun x : CmdParam demo_fn demo_ptr =>
                         cmdname x <> [] /\
                         cmdname x <> first_token (sep initial) (lit "quit now"))
                 (firstn 6 commands))
    by (repeat constructor; discriminate).
  split; [exact H1|]. split; [exact H2|].
  exact (proj2 (process_needs_end_row LP64 (firstn 6 commands) _ initial H1 H2 H3)).
Defined.

(** ** More on the conversions *)

Lemma render_aux_app (fuel : nat) (base : Z) :
  forall n acc, render_aux fuel base n acc = render_aux fuel base n [] ++ acc.
Proof.
  induction fuel as [|f IH]; intros n acc; [reflexivity|].
  cbn [render_aux]. destruct (n <? base); [reflexivity|].
  rewrite IH, (IH _ [_]), <- app_assoc. reflexivity.
Qed.

Lemma accumulate_render_app (base n : Z) (tl : text) :
  2 <= base <= 16 -> 0 <= n ->
  accumulate base 0 (render base n ++ tl) = accumulate base n tl.
Proof.
  intros Hb Hn. unfold render. rewrite <- render_aux_app.
  apply accumulate_render_aux; [assumption|]. split; [lia|now apply render_fuel].
Qed.

Lemma digit_below (c : ascii) : is_digit 10 c = false -> digit 10 c = None /\ digit 8 c = None.
Proof.
  unfold is_digit, digit. destruct (digit_value c) as [d|]; [|now split].
  destruct (d <? 10) eqn:E; [discriminate|]. intros _.
  apply Z.ltb_ge in E. replace (d <? 8) with false by (symmetry; apply Z.ltb_ge; lia).
  now split.
Qed.

Lemma unsigned_value_decimal_then (n : Z) (c : ascii) (r : text) :
  0 <= n -> is_digit 10 c = false ->
  n <> 0 \/ (c <> "x"%char /\ c <> "X"%char) ->
  unsigned_value (render 10 n ++ c :: r) = Some n.
Proof.
  intros Hn Hc Hx. destruct (digit_below c Hc) as [Hc10 Hc8].
  destruct (Z.eq_dec n 0) as [->|Hz].
  - destruct Hx as [Hx|[Hx1 Hx2]]; [congruence|].
    change (render 10 0 ++ c :: r) with ("0"%char :: c :: r).
    assert (Hdb : detect_base ("0"%char :: c :: r) = (8, "0"%char :: c :: r)).
    { destruct r as [|h r']; [reflexivity|]. cbn [detect_base].
      replace (Ascii.eqb c "x") with false
        by (symmetry; apply not_true_is_false; now rewrite Ascii.eqb_eq).
      replace (Ascii.eqb c "X") with false
        by (symmetry; apply not_true_is_false; now rewrite Ascii.eqb_eq).
      reflexivity. }
    unfold unsigned_value. rewrite Hdb.
    change (starts_with (is_digit 8) ("0"%char :: c :: r)) with true. cbv iota.
    change (accumulate 8 0 ("0"%char :: c :: r)) with (accumulate 8 0 (c :: r)).
    cbn [accumulate]. now rewrite Hc8.
  - destruct (render_head 10 n) as (d & t & Hr & Hd & Hpos); [lia|assumption|].
    assert (H1 : 1 <= d) by (apply Hpos; lia).
    assert (Hdb : detect_base (render 10 n ++ c :: r) = (10, render 10 n ++ c :: r))
      by (rewrite Hr; digit_cases d; try lia; reflexivity).
    assert (Hst : starts_with (is_digit 10) (render 10 n ++ c :: r) = true)
      by (rewrite Hr; digit_cases d; try lia; reflexivity).
    unfold unsigned_value. rewrite Hdb, Hst, accumulate_render_app by lia.
    cbn [accumulate]. now rewrite Hc10.
Qed.

Lemma magnitude_to_string_then (v : Z) (c : ascii) (r : text) :
  is_digit 10 c = false ->
  v <> 0 \/ (c <> "x"%char /\ c <> "X"%char) ->
  magnitude (to_string v ++ c :: r) = Some (v <? 0, Z.abs v).
Proof.
  intros Hc Hx. unfold to_string, signed. simpl app. destruct (v <? 0) eqn:E.
  - apply Z.ltb_lt in E. change (("-"%char :: render 10 (- v)) ++ c :: r)
      with ("-"%char :: (render 10 (- v) ++ c :: r)).
    rewrite magnitude_minus, unsigned_value_decimal_then by (auto; lia).
    simpl. do 2 f_equal. lia.
  - apply Z.ltb_ge in E.
    destruct (render_head 10 v) as (d & t & Hr & Hd & _); [lia|assumption|].
    assert (Hm : magnitude (render 10 v ++ c :: r) =
                 option_map (pair false) (unsigned_value (render 10 v ++ c :: r)))
      by (rewrite Hr; apply (magnitude_digit_head d); lia).
    rewrite Hm, unsigned_value_decimal_then by (auto; lia).
    simpl. do 2 f_equal. lia.
Qed.

Lemma app_cons_nonempty (a : text) c (r : text) : a ++ c :: r <> [].
Proof. destruct a; discriminate. Qed.

(** X7.  [getint] converts the longest numeric prefix of the token and
    ignores what follows it: a token made of the decimal rendering of an
    [int] [v] and then any text that starts with a character other than a
    decimal digit is returned as [v], with [valid] true (for [v = 0] the
    text must not start with [x] or [X], which would make a [0x] prefix). *)
Theorem getint_ignores_trailing_text (dm : data_model) (st : parser) (v : Z)
    (c : ascii) (r : text) :
  representable st ->
  INT_MIN <= v <= INT_MAX ->
  next_token st = to_string v ++ c :: r ->
  is_digit 10 c = false ->
  v <> 0 \/ (c <> "x"%char /\ c <> "X"%char) ->
  value (getint dm st) = Ok v /\ valid (getint dm st) = Some true.
Proof.
  intros Hrep Hv Htok Hc Hx.
  assert (Hne : next_token st <> []) by (rewrite Htok; apply app_cons_nonempty).
  destruct (getnumber_next 0 (stoi dm) dm st Hrep Hne) as [H1 H2].
  unfold getint. rewrite H1, H2, Htok. split; [|reflexivity].
  apply stoi_of_magnitude; [assumption|now apply magnitude_to_string_then].
Qed.

Lemma getint_ignores_trailing_text_witness :
  representable (mkParser (lit "B 12abc") 1 default_sep) /\
  next_token (mkParser (lit "B 12abc") 1 default_sep) = to_string 12 ++ lit "abc" /\
  value (getint LP64 (mkParser (lit "B 12abc") 1 default_sep)) = Ok 12.
Proof.
  assert (H1 : representable (mkParser (lit "B 12abc") 1 default_sep))
    by (unfold representable, UINT_MAX, size; simpl; lia).
  assert (H2 : INT_MIN <= 12 <= INT_MAX) by (unfold INT_MIN, INT_MAX; lia).
  assert (H3 : next_token (mkParser (lit "B 12abc") 1 default_sep)
               = to_string 12 ++ "a"%char :: lit "bc") by reflexivity.
  assert (H4 : 12 <> 0 \/ ("a"%char <> "x"%char /\ "a"%char <> "X"%char))
    by (left; discriminate).
  split; [exact H1|]. split; [exact H3|].
  exact (proj1 (getint_ignores_trailing_text LP64 _ 12 "a"%char (lit "bc") H1 H2 H3
                  eq_refl H4)).
Defined.

(** X8.  A number outside the range of [int] is not returned cut or
    clamped: with its decimal rendering at the cursor [getint] stores [true]
    through [valid] and leaves with [std::out_of_range]. *)
Theorem getint_out_of_range (dm : data_model) (st : parser) (v : Z) :
  representable st ->
  next_token st = to_string v ->
  v < INT_MIN \/ INT_MAX < v ->
  value (getint dm st) = Throw out_of_range /\ valid (getint dm st) = Some true.
Proof.
  intros Hrep Htok Hv.
  pose proof (magnitude_to_string v) as Hm. rewrite <- Htok in Hm.
  destruct (getnumber_next 0 (stoi dm) dm st Hrep (magnitude_nonempty _ _ Hm)) as [H1 H2].
  unfold getint. rewrite H1, H2. split; [|reflexivity].
  unfold stoi, strtol. rewrite Hm.
  assert (Hval : (if v <? 0 then - Z.abs v else Z.abs v) = v)
    by (destruct (v <? 0) eqn:E; [apply Z.ltb_lt in E|apply Z.ltb_ge in E]; lia).
  rewrite Hval.
  destruct ((- 2 ^ (long_bits dm - 1) <=? v) && (v <=? 2 ^ (long_bits dm - 1) - 1));
    [|reflexivity].
  replace ((v <? INT_MIN) || (INT_MAX <? v)) with true; [reflexivity|].
  symmetry. apply orb_true_iff. rewrite !Z.ltb_lt. exact Hv.
Qed.

Lemma getint_out_of_range_witness :
  representable (mkParser (lit "B 2147483648") 1 default_sep) /\
  next_token (mkParser (lit "B 2147483648") 1 default_sep) = to_string 2147483648 /\
  (2147483648 < INT_MIN \/ INT_MAX < 2147483648) /\
  value (getint LP64 (mkParser (lit "B 2147483648") 1 default_sep)) = Throw out_of_range.
Proof.
  assert (H1 : representable (mkParser (lit "B 2147483648") 1 default_sep))
    by (unfold representable, UINT_MAX, size; simpl; lia).
  assert (H2 : next_token (mkParser (lit "B 2147483648") 1 default_sep)
               = to_string 2147483648) by reflexivity.
  assert (H3 : 2147483648 < INT_MIN \/ INT_MAX < 2147483648)
    by (right; reflexivity).
  split; [exact H1|]. split; [exact H2|]. split; [exact H3|].
  exact (proj1 (getint_out_of_range LP64 _ 2147483648 H1 H2 H3)).
Defined.

Lemma to_uint_of_long (dm : data_model) (v : Z) :
  to_uint (v mod 2 ^ long_bits dm) = v mod 2 ^ 32.
Proof.
  unfold to_uint. apply Z.mod_mod_divide.
  destruct dm; simpl long_bits.
  - apply Z.divide_refl.
  - exists (2 ^ 32). reflexivity.
  - apply Z.divide_refl.
Qed.

(** X9.  [getuint] does not refuse what an [unsigned int] cannot hold.  With
    the decimal rendering of [v] at the cursor it returns [v] reduced modulo
    [2^32] whenever the magnitude of [v] fits an [unsigned long], a negative
    [v] and, where [long] has 64 bits, a [v] above [UINT_MAX] included; only
    a magnitude beyond [ULONG_MAX] gives [std::out_of_range]. *)
Theorem getuint_wraps (dm : data_model) (st : parser) (v : Z) :
  representable st ->
  next_token st = to_string v ->
  valid (getuint dm st) = Some true /\
  (Z.abs v <= 2 ^ long_bits dm - 1 -> value (getuint dm st) = Ok (v mod 2 ^ 32)) /\
  (2 ^ long_bits dm - 1 < Z.abs v -> value (getuint dm st) = Throw out_of_range).
Proof.
  intros Hrep Htok.
  pose proof (magnitude_to_string v) as Hm. rewrite <- Htok in Hm.
  unfold getuint.
  match goal with |- context [getnumber 0 ?c dm st] =>
    destruct (getnumber_next 0 c dm st Hrep (magnitude_nonempty _ _ Hm)) as [H1 H2]
  end.
  rewrite H1, H2. split; [reflexivity|].
  unfold stoul, strtoul. rewrite Hm.
  assert (Hval : (if v <? 0 then - Z.abs v else Z.abs v) = v)
    by (destruct (v <? 0) eqn:E; [apply Z.ltb_lt in E|apply Z.ltb_ge in E]; lia).
  rewrite Hval. split; intros Hr.
  - replace (Z.abs v <=? 2 ^ long_bits dm - 1) with true
      by (symmetry; now apply Z.leb_le).
    f_equal. apply to_uint_of_long.
  - replace (Z.abs v <=? 2 ^ long_bits dm - 1) with false
      by (symmetry; apply Z.leb_gt; exact Hr).
    reflexivity.
Qed.

Lemma getuint_wraps_witness :
  representable (mkParser (lit "B -1") 1 default_sep) /\
  next_token (mkParser (lit "B -1") 1 default_sep) = to_string (-1) /\
  value (getuint LP64 (mkParser (lit "B -1") 1 default_sep)) = Ok 4294967295.
Proof.
  assert (H1 : representable (mkParser (lit "B -1") 1 default_sep))
    by (unfold representable, UINT_MAX, size; simpl; lia).
  assert (H2 : next_token (mkParser (lit "B -1") 1 default_sep) = to_string (-1))
    by reflexivity.
  split; [exact H1|]. split; [exact H2|].
  destruct (getuint_wraps LP64 _ (-1) H1 H2) as (_ & Hw & _).
  apply Hw. simpl. lia.
Defined.

(** X10.  [getuint] detects the base like [getint]: the rendering of an
    [unsigned int] with the [0x] prefix is read in base 16 and the one with
    a leading [0] in base 8. *)
Theorem getuint_detects_base (dm : data_model) (st : parser) (v : Z) :
  representable st ->
  0 <= v <= UINT_MAX ->
  next_token st = to_hex v \/ next_token st = to_octal v ->
  value (getuint dm st) = Ok v /\ valid (getuint dm st) = Some true.
Proof.
  intros Hrep Hv Htok.
  assert (Hm : magnitude (next_token st) = Some (v <? 0, Z.abs v))
    by (destruct Htok as [-> | ->]; [apply magnitude_to_hex|apply magnitude_to_octal]).
  unfold getuint.
  match goal with |- context [getnumber 0 ?c dm st] =>
    destruct (getnumber_next 0 c dm st Hrep (magnitude_nonempty _ _ Hm)) as [H1 H2]
  end.
  rewrite H1, H2. split; [|reflexivity].
  rewrite (stoul_of_magnitude dm _ v Hv Hm). f_equal. now apply to_uint_small.
Qed.

Lemma getuint_detects_base_witness :
  representable (mkParser (lit "B 0xff") 1 default_sep) /\
  0 <= 255 <= UINT_MAX /\
  next_token (mkParser (lit "B 0xff") 1 default_sep) = to_hex 255 /\
  value (getuint LP64 (mkParser (lit "B 0xff") 1 default_sep)) = Ok 255.
Proof.
  assert (H1 : representable (mkParser (lit "B 0xff") 1 default_sep))
    by (unfold representable, UINT_MAX, size; simpl; lia).
  assert (H2 : 0 <= 255 <= UINT_MAX) by (unfold UINT_MAX; lia).
  assert (H3 : next_token (mkParser (lit "B 0xff") 1 default_sep) = to_hex 255)
    by reflexivity.
  split; [exact H1|]. split; [exact H2|]. split; [exact H3|].
  exact (proj1 (getuint_detects_base LP64 _ 255 H1 H2 (or_introl H3))).
Defined.

(** ** The demo handlers *)

Lemma getfloat_token {FL : FloatLib} (dm : data_model) (st : parser) :
  representable st -> next_token st <> [] ->
  getfloat dm st = mkRet (stof (next_token st)) (Some true) (after (gettoken dm st)).
Proof.
  intros Hrep Hne. destruct (gettoken_next dm st Hrep Hne) as [Hv Hb].
  unfold getfloat, getnumber. now rewrite Hv, Hb.
Qed.

Lemma getfloat_none {FL : FloatLib} (dm : data_model) (st : parser) :
  representable st -> next_token st = [] ->
  getfloat dm st = mkRet (Ok float_zero) (Some false) st.
Proof.
  intros Hrep Hnone.
  assert (Hg : gettoken dm st = mkRet (Ok []) (Some false) st).
  { apply gettoken_blank; [apply Hrep|].
    unfold next_token in Hnone. fold (unread st) in *.
    destruct (after_run (is_sep (sep st)) (unread st)) as [|c r] eqn:Eb; [reflexivity|].
    now apply first_token_nonempty in Eb. }
  unfold getfloat, getnumber. now rewrite Hg.
Qed.

(** X11.  [cmd_val] on one of the two variables: without an argument it
    prints the variable and changes nothing; with an argument [std::stof]
    converts it stores the value in that variable only and prints it; with
    an argument [std::stof] rejects, the exception leaves [cmd_val] before
    anything is stored or printed. *)
Theorem cmd_val_behaviour {FL : FloatLib} (dm : data_model) (arg : demo_ptr)
    (st : parser) (m : demo_vars) :
  representable st ->
  arg = ptr_valueA \/ arg = ptr_valueB ->
  (next_token st = [] ->
   exists x, load arg m = Some x /\
             cmd_val dm arg st m = mkEffect Done m [printf_f x] st) /\
  (forall v, next_token st <> [] -> stof (next_token st) = Ok v ->
   exists m', store arg v m = Some m' /\ load arg m' = Some v /\
              cmd_val dm arg st m = mkEffect Done m' [printf_f v] (after (gettoken dm st))) /\
  (forall e, next_token st <> [] -> stof (next_token st) = Throw e ->
   cmd_val dm arg st m = mkEffect (Raised e) m [] (after (gettoken dm st))).
Proof.
  intros Hrep Harg. split; [|split].
  - intros Hnone. unfold cmd_val. rewrite (getfloat_none dm st Hrep Hnone).
    cbn [value valid after].
    destruct Harg as [-> | ->]; eexists; split; reflexivity.
  - intros v Hne Hv. unfold cmd_val. rewrite (getfloat_token dm st Hrep Hne), Hv.
    cbn [value valid after].
    destruct Harg as [-> | ->]; eexists; repeat split; reflexivity.
  - intros e Hne He. unfold cmd_val. rewrite (getfloat_token dm st Hrep Hne), He.
    reflexivity.
Qed.

Lemma cmd_val_behaviour_witness :
  representable (mkParser (lit "A 3.5") 1 default_sep) /\
  vars (@cmd_val symbolic_floats LP64 ptr_valueA (mkParser (lit "A 3.5") 1 default_sep)
          (@mkVars symbolic_floats (lit "1") (lit "2") (lit "3") (lit "4"))) =
    @mkVars symbolic_floats (lit "3.5") (lit "2") (lit "3") (lit "4") /\
  @cmd_val symbolic_floats LP64 ptr_valueA (mkParser (lit "A abc") 1 default_sep)
     (@mkVars symbolic_floats (lit "1") (lit "2") (lit "3") (lit "4")) =
    @mkEffect symbolic_floats (Raised invalid_argument) (@mkVars symbolic_floats (lit "1") (lit "2") (lit "3") (lit "4")) []
      (mkParser (lit "A abc") UINT_MAX default_sep).
Proof.
  assert (H1 : representable (mkParser (lit "A 3.5") 1 default_sep))
    by (unfold representable, UINT_MAX, size; simpl; lia).
  assert (H2 : representable (mkParser (lit "A abc") 1 default_sep))
    by (unfold representable, UINT_MAX, size; simpl; lia).
  split; [exact H1|]. split.
  - destruct (@cmd_val_behaviour symbolic_floats LP64 ptr_valueA _
                (@mkVars symbolic_floats (lit "1") (lit "2") (lit "3") (lit "4")) H1 (or_introl eq_refl))
      as (_ & Hset & _).
    destruct (Hset (lit "3.5")) as (m' & Hst & _ & Hrun);
      [discriminate|reflexivity|].
    rewrite Hrun. cbn [vars]. injection Hst as <-. reflexivity.
  - destruct (@cmd_val_behaviour symbolic_floats LP64 ptr_valueA _
                (@mkVars symbolic_floats (lit "1") (lit "2") (lit "3") (lit "4")) H2 (or_introl eq_refl))
      as (_ & _ & Hthrow).
    rewrite (Hthrow invalid_argument); [reflexivity|discriminate|reflexivity].
Defined.

(** X12.  [list] reads up to two values.  Without a first argument nothing
    is stored, the second static included; with one argument only the first
    static changes; when the second argument is rejected by [std::stof] the
    first static has already been overwritten as the exception leaves
    [list], and nothing is printed. *)
Theorem list_handler_behaviour {FL : FloatLib} (dm : data_model)
    (st : parser) (m : demo_vars) :
  representable st ->
  let second := first_token (sep st) (after_token (sep st) (unread st)) in
  (next_token st = [] ->
   list_handler dm st m =
     mkEffect Done m [printf_ff (list_value m) (list_value2 m)] st) /\
  (forall f1, next_token st <> [] -> stof (next_token st) = Ok f1 -> second = [] ->
   result (list_handler dm st m) = Done /\
   vars (list_handler dm st m) = mkVars (valueA m) (valueB m) f1 (list_value2 m) /\
   printed (list_handler dm st m) = [printf_ff f1 (list_value2 m)]) /\
  (forall f1 f2, next_token st <> [] -> stof (next_token st) = Ok f1 ->
   second <> [] -> stof second = Ok f2 ->
   result (list_handler dm st m) = Done /\
   vars (list_handler dm st m) = mkVars (valueA m) (valueB m) f1 f2 /\
   printed (list_handler dm st m) = [printf_ff f1 f2]) /\
  (forall f1 e, next_token st <> [] -> stof (next_token st) = Ok f1 ->
   second <> [] -> stof second = Throw e ->
   result (list_handler dm st m) = Raised e /\
   vars (list_handler dm st m) = mkVars (valueA m) (valueB m) f1 (list_value2 m) /\
   printed (list_handler dm st m) = []).
Proof.
  intros Hrep second.
  assert (Hstep : next_token st <> [] ->
                  representable (after (gettoken dm st)) /\
                  next_token (after (gettoken dm st)) = second).
  { intros Hne. unfold next_token in Hne. fold (unread st) in Hne.
    destruct (first_token_present _ _ Hne) as (c & r & Eb).
    destruct (gettoken_step dm st c r Hrep Eb) as (_ & _ & Hrep' & Hsep & _ & Hun).
    split; [exact Hrep'|]. unfold next_token. fold (unread (after (gettoken dm st))).
    now rewrite Hsep, Hun. }
  split; [|split; [|split]].
  - intros Hnone. unfold list_handler. rewrite (getfloat_none dm st Hrep Hnone).
    cbn [value valid after]. rewrite (getfloat_none dm st Hrep Hnone).
    reflexivity.
  - intros f1 Hne H1 H2. destruct (Hstep Hne) as [Hrep' Hnext].
    unfold list_handler. rewrite (getfloat_token dm st Hrep Hne), H1.
    cbn [value valid after].
    rewrite (getfloat_none dm _ Hrep') by (now rewrite Hnext).
    repeat split.
  - intros f1 f2 Hne H1 H2 H3. destruct (Hstep Hne) as [Hrep' Hnext].
    unfold list_handler. rewrite (getfloat_token dm st Hrep Hne), H1.
    cbn [value valid after].
    rewrite (getfloat_token dm _ Hrep') by (now rewrite Hnext).
    rewrite Hnext, H3. repeat split.
  - intros f1 e Hne H1 H2 H3. destruct (Hstep Hne) as [Hrep' Hnext].
    unfold list_handler. rewrite (getfloat_token dm st Hrep Hne), H1.
    cbn [value valid after].
    rewrite (getfloat_token dm _ Hrep') by (now rewrite Hnext).
    rewrite Hnext, H3. repeat split.
Qed.

Lemma list_handler_behaviour_witness :
  representable (mkParser (lit "list 1.2 x") 4 default_sep) /\
  result (@list_handler symbolic_floats LP64 (mkParser (lit "list 1.2 x") 4 default_sep)
            (@mkVars symbolic_floats (lit "1") (lit "2") (lit "3") (lit "4"))) = Raised invalid_argument /\
  vars (@list_handler symbolic_floats LP64 (mkParser (lit "list 1.2 x") 4 default_sep)
          (@mkVars symbolic_floats (lit "1") (lit "2") (lit "3") (lit "4"))) =
    @mkVars symbolic_floats (lit "1") (lit "2") (lit "1.2") (lit "4").
Proof.
  assert (H1 : representable (mkParser (lit "list 1.2 x") 4 default_sep))
    by (unfold representable, UINT_MAX, size; simpl; lia).
  split; [exact H1|].
  destruct (@list_handler_behaviour symbolic_floats LP64 _
              (@mkVars symbolic_floats (lit "1") (lit "2") (lit "3") (lit "4")) H1)
    as (_ & _ & _ & Hthrow).
  destruct (Hthrow (lit "1.2") invalid_argument) as (Hr & Hv & _);
    [discriminate|reflexivity|discriminate|reflexivity|].
  split; [exact Hr|exact Hv].
Defined.

(** ** A leading zero *)

Lemma unsigned_value_zero_then (c : ascii) (r : text) :
  is_digit 8 c = false -> c <> "x"%char -> c <> "X"%char ->
  unsigned_value ("0"%char :: c :: r) = Some 0.
Proof.
  intros Hc Hx1 Hx2.
  assert (Hc8 : digit 8 c = None)
    by (unfold is_digit in Hc; destruct (digit 8 c); [discriminate|reflexivity]).
  assert (Hdb : detect_base ("0"%char :: c :: r) = (8, "0"%char :: c :: r)).
  { destruct r as [|h r']; [reflexivity|]. cbn [detect_base].
    replace (Ascii.eqb c "x") with false
      by (symmetry; apply not_true_is_false; now rewrite Ascii.eqb_eq).
    replace (Ascii.eqb c "X") with false
      by (symmetry; apply not_true_is_false; now rewrite Ascii.eqb_eq).
    reflexivity. }
  unfold unsigned_value. rewrite Hdb.
  change (starts_with (is_digit 8) ("0"%char :: c :: r)) with true. cbv iota.
  change (accumulate 8 0 ("0"%char :: c :: r)) with (accumulate 8 0 (c :: r)).
  cbn [accumulate]. now rewrite Hc8.
Qed.

(** X13.  A token that starts with [0] is read in base 8: when the
    character after the [0] is not an octal digit (and not the [x] of a
    [0x] prefix), the number ends there, and [getint] and [getuint] return
    0 with [valid] true, whatever follows: ["08"], ["09"] and ["0.5"] are
    all read as 0. *)
Theorem getint_leading_zero (dm : data_model) (st : parser) (c : ascii) (r : text) :
  representable st ->
  next_token st = "0"%char :: c :: r ->
  is_digit 8 c = false -> c <> "x"%char -> c <> "X"%char ->
  (value (getint dm st) = Ok 0 /\ valid (getint dm st) = Some true) /\
  (value (getuint dm st) = Ok 0 /\ valid (getuint dm st) = Some true).
Proof.
  intros Hrep Htok Hc Hx1 Hx2.
  assert (Hne : next_token st <> []) by (rewrite Htok; discriminate).
  assert (Hm : magnitude (next_token st) = Some (0 <? 0, Z.abs 0)).
  { rewrite Htok, (magnitude_digit_head 0) by lia.
    now rewrite unsigned_value_zero_then. }
  split.
  - destruct (getnumber_next 0 (stoi dm) dm st Hrep Hne) as [H1 H2].
    unfold getint. rewrite H1, H2. split; [|reflexivity].
    apply stoi_of_magnitude; [unfold INT_MIN, INT_MAX; lia|exact Hm].
  - unfold getuint.
    match goal with |- context [getnumber 0 ?f dm st] =>
      destruct (getnumber_next 0 f dm st Hrep Hne) as [H1 H2]
    end.
    rewrite H1, H2. split; [|reflexivity].
    rewrite (stoul_of_magnitude dm _ 0); [reflexivity|unfold UINT_MAX; lia|exact Hm].
Qed.

Lemma getint_leading_zero_witness :
  representable (mkParser (lit "B 089") 1 default_sep) /\
  next_token (mkParser (lit "B 089") 1 default_sep) = "0"%char :: "8"%char :: lit "9" /\
  value (getint LP64 (mkParser (lit "B 089") 1 default_sep)) = Ok 0.
Proof.
  assert (H1 : representable (mkParser (lit "B 089") 1 default_sep))
    by (unfold representable, UINT_MAX, size; simpl; lia).
  assert (H2 : next_token (mkParser (lit "B 089") 1 default_sep)
               = "0"%char :: "8"%char :: lit "9") by reflexivity.
  split; [exact H1|]. split; [exact H2|].
  refine (proj1 (proj1 (getint_leading_zero LP64 _ "8"%char (lit "9") H1 H2 eq_refl _ _)));
    discriminate.
Defined.
